(** * Daily Reading Companion: chunker, text utilities and progress tracker

    A shallow embedding of [src/utils.py], [src/models/core.py],
    [src/processors/chunker.py] and [src/services/progress.py], followed by
    the properties of the paragraph-preserving chunker and of the per-book
    progress state machine.

    Conventions.
    - A Python [str] is a list of Unicode code points ([list N]).
    - A Python [int] is a [Z].
    - A Python [float] is a binary64 number of [SpecFloat] wherever its
      rounding decides what the code does (the word budget of the chunker).
      The quotients [int / int] that are only shown or stored are read as
      the exact rational ([Q]); every bound proved of them is between
      integers that binary floating point represents exactly.
    - A raised exception is [None]. *)

From Stdlib Require Import ZArith NArith QArith List Bool Lia Ascii String.
From Stdlib Require Import SpecFloat.
From stdpp Require Import base option list gmap strings.

Open Scope Z_scope.

(* ===================================================================== *)
(** * Python strings *)
(* ===================================================================== *)

Definition char := N.
Definition str := list char.

Definition TAB : char := 9%N.
Definition NL : char := 10%N.
Definition SP : char := 32%N.
Definition DQUOTE : char := 34%N.
Definition SQUOTE : char := 39%N.

(** Code points for which CPython's [Py_UNICODE_ISSPACE] is true: the
    characters removed by [str.strip()] and separating the words of
    [str.split()]. *)
Definition isspace (c : char) : bool :=
  ((9 <=? c) && (c <=? 13) || (28 <=? c) && (c <=? 32)
   || (c =? 133) || (c =? 160) || (c =? 5760)
   || (8192 <=? c) && (c <=? 8202)
   || (c =? 8232) || (c =? 8233) || (c =? 8239) || (c =? 8287)
   || (c =? 12288))%N.

(** [s.lstrip()] *)
Fixpoint lstrip (s : str) : str :=
  match s with
  | [] => []
  | c :: s' => if isspace c then lstrip s' else s
  end.

(** [s.rstrip()]: a character is dropped when it is white space and nothing
    survives to its right. *)
Fixpoint rstrip (s : str) : str :=
  match s with
  | [] => []
  | c :: s' =>
      match rstrip s' with
      | [] => if isspace c then [] else [c]
      | r => c :: r
      end
  end.

(** [s.strip()] *)
Definition strip (s : str) : str := rstrip (lstrip s).

(** Truth value of a string: [not s] is [is_empty s]. *)
Definition is_empty {A} (l : list A) : bool :=
  match l with [] => true | _ => false end.

(** Prepend a character to the first piece of a split. *)
Definition cons_head (c : char) (l : list str) : list str :=
  match l with
  | [] => [[c]]
  | h :: t => (c :: h) :: t
  end.

(** [s.split('\n')] *)
Fixpoint split_nl (s : str) : list str :=
  match s with
  | [] => [[]]
  | c :: s' => if (c =? NL)%N then [] :: split_nl s' else cons_head c (split_nl s')
  end.

(** [s.split('\n\n')]: separators are found left to right and do not
    overlap. *)
Fixpoint split_nl2 (s : str) : list str :=
  match s with
  | [] => [[]]
  | c :: s' =>
      match s' with
      | d :: s'' =>
          if (c =? NL)%N && (d =? NL)%N then [] :: split_nl2 s''
          else cons_head c (split_nl2 s')
      | [] => [[c]]
      end
  end.

(** [sep.join(l)] *)
Fixpoint join (sep : str) (l : list str) : str :=
  match l with
  | [] => []
  | x :: rest =>
      match rest with
      | [] => x
      | _ => x ++ sep ++ join sep rest
      end
  end.

(** [s.split()]: the maximal runs of characters that are not white space.
    [word] is the run being read. *)
Fixpoint split_ws_from (word : str) (s : str) : list str :=
  match s with
  | [] => if is_empty word then [] else [word]
  | c :: s' =>
      if isspace c then
        (if is_empty word then split_ws_from [] s'
         else word :: split_ws_from [] s')
      else split_ws_from (word ++ [c]) s'
  end.

Definition split_ws (s : str) : list str := split_ws_from [] s.

(** [re.sub(r'[ \t]+', ' ', s)]: each maximal run of spaces and tabs
    becomes one space; [in_run] tells that the run's space was written. *)
Definition is_blank (c : char) : bool := ((c =? SP) || (c =? TAB))%N.

Fixpoint sub_blanks (in_run : bool) (s : str) : str :=
  match s with
  | [] => []
  | c :: s' =>
      if is_blank c then
        (if in_run then sub_blanks true s' else SP :: sub_blanks true s')
      else c :: sub_blanks false s'
  end.

(** [re.sub(r'\n{3,}', '\n\n', s)]: a run of three or more newlines keeps
    its first two; [run] counts the newlines of the current run. *)
Fixpoint sub_newlines (run : nat) (s : str) : str :=
  match s with
  | [] => []
  | c :: s' =>
      if (c =? NL)%N then
        (if (run <? 2)%nat then NL :: sub_newlines (S run) s'
         else sub_newlines (S run) s')
      else c :: sub_newlines 0 s'
  end.

(** [re.sub('[' + class + ']', repl, s)] for a character class. *)
Definition sub_class (class : list char) (repl : char) (s : str) : str :=
  map (fun c => if existsb (N.eqb c) class then repl else c) s.

(* ===================================================================== *)
(** * src/utils.py *)
(* ===================================================================== *)

(** [count_words] *)
Definition count_words (text : str) : Z :=
  if is_empty (strip text) then 0
  else
    let words := List.filter (fun word => negb (is_empty (strip word)))
                             (split_ws text) in
    Z.of_nat (length words).

(** The two character classes of the quote step, as the file has them:
    each lists the straight quote three times. *)
Definition double_quote_class : list char := [DQUOTE; DQUOTE; DQUOTE].
Definition single_quote_class : list char := [SQUOTE; SQUOTE; SQUOTE].

Definition clean_line (line : str) : str := sub_blanks false (strip line).

(** [clean_text] *)
Definition clean_text (text : str) : str :=
  if is_empty text then []
  else
    let lines := split_nl text in
    let cleaned_lines := map clean_line lines in
    let text := join [NL] cleaned_lines in
    let text := sub_class double_quote_class DQUOTE text in
    let text := sub_class single_quote_class SQUOTE text in
    let text := sub_newlines 0 text in
    strip text.

(* ===================================================================== *)
(** * src/models/core.py *)
(* ===================================================================== *)

Record BookProgress := mkBookProgress {
  current_chunk : Z;
  total_chunks : Z;
  reading_days : Z;
  completed : bool
}.

(** [BookProgress.progress_percentage] *)
Definition progress_percentage (self : BookProgress) : Q :=
  if total_chunks self =? 0 then 0%Q
  else (inject_Z (current_chunk self) / inject_Z (total_chunks self) * 100)%Q.

(** The assignment [self.total_chunks = total]. *)
Definition set_total_chunks (self : BookProgress) (total : Z) : BookProgress :=
  mkBookProgress (current_chunk self) total (reading_days self)
    (completed self).

(** [BookProgress.mark_chunk_read] *)
Definition mark_chunk_read (self : BookProgress) : BookProgress :=
  if current_chunk self <? total_chunks self then
    let current := current_chunk self + 1 in
    let days := reading_days self + 1 in
    mkBookProgress current (total_chunks self) days
      (if total_chunks self <=? current then true else completed self)
  else self.

(** [BookProgress.is_finished] *)
Definition is_finished (self : BookProgress) : bool :=
  completed self || (total_chunks self <=? current_chunk self).

Record BookChunk := mkBookChunk {
  index : Z;
  content : str;
  word_count : Z;
  estimated_reading_time : Q
}.

(* ===================================================================== *)
(** * src/processors/chunker.py *)
(* ===================================================================== *)

(** A Python number: an [int], or a [float], which is an IEEE 754 binary64
    number (53 bits of precision, infinities at exponent 1024). *)
Inductive py_number :=
| PyInt (n : Z)
| PyFloat (x : spec_float).

Definition float_prec : Z := 53.
Definition float_emax : Z := 1024.

(** The conversion of an [int] operand to [float]: the nearest double, ties
    to even; [OverflowError] when that is out of range. *)
Definition int_to_float (n : Z) : option spec_float :=
  match binary_normalize float_prec float_emax n 0 false with
  | S754_infinity _ => None
  | x => Some x
  end.

(** [a * b] with [b] an [int]: exact for an [int] [a]; for a [float] [a]
    the product of two doubles, rounded to the nearest double, ties to
    even. *)
Definition py_mul (a : py_number) (b : Z) : option py_number :=
  match a with
  | PyInt n => Some (PyInt (n * b))
  | PyFloat x =>
      match int_to_float b with
      | None => None
      | Some y => Some (PyFloat (SFmul float_prec float_emax x y))
      end
  end.

(** [int(x)]: an [int] as it is, a finite [float] truncated toward zero;
    [OverflowError] on an infinity and [ValueError] on a NaN. *)
Definition py_int (x : py_number) : option Z :=
  match x with
  | PyInt n => Some n
  | PyFloat (S754_zero _) => Some 0
  | PyFloat (S754_finite s m e) => Some (cond_Zopp s (Z.shiftl (Zpos m) e))
  | PyFloat _ => None
  end.

(** The reading time is an [int] when it comes from the settings as they
    are declared and a [float] by the constructor's default; the reading
    speed is an [int]. *)
Record TextChunker := mkTextChunker {
  target_reading_time : py_number;
  words_per_minute : Z
}.

(** [int(self.target_reading_time * self.words_per_minute)] *)
Definition target_words (self : TextChunker) : option Z :=
  match py_mul (target_reading_time self) (words_per_minute self) with
  | None => None
  | Some product => py_int product
  end.

Definition NL2 : str := [NL; NL].

(** [TextChunker._create_chunk]; the division raises [ZeroDivisionError]
    when [words_per_minute] is zero.  (Its other error, a quotient too
    large for a [float], needs more words than a Python string has
    characters.) *)
Definition _create_chunk (self : TextChunker) (index : Z) (content : str)
  : option BookChunk :=
  let word_count := count_words content in
  if words_per_minute self =? 0 then None
  else
    let reading_time := (inject_Z word_count / inject_Z (words_per_minute self))%Q in
    Some (mkBookChunk index content word_count reading_time).

(** The [for paragraph in paragraphs] loop of [chunk_text] together with the
    final chunk after it; the three accumulators are the loop's variables. *)
Fixpoint chunk_loop (self : TextChunker) (target_words : Z)
    (paragraphs : list str)
    (chunks : list BookChunk) (current_chunk_paragraphs : list str)
    (current_word_count : Z) : option (list BookChunk) :=
  match paragraphs with
  | [] =>
      if negb (is_empty current_chunk_paragraphs) then
        let chunk_text := join NL2 current_chunk_paragraphs in
        match _create_chunk self (Z.of_nat (length chunks)) chunk_text with
        | None => None
        | Some c => Some (chunks ++ [c])
        end
      else Some chunks
  | paragraph :: rest =>
      let paragraph := strip paragraph in
      if is_empty paragraph then
        chunk_loop self target_words rest chunks current_chunk_paragraphs
          current_word_count
      else
        let paragraph_words := count_words paragraph in
        if (target_words <? current_word_count + paragraph_words)
           && negb (is_empty current_chunk_paragraphs) then
          let chunk_text := join NL2 current_chunk_paragraphs in
          match _create_chunk self (Z.of_nat (length chunks)) chunk_text with
          | None => None
          | Some c =>
              chunk_loop self target_words rest (chunks ++ [c]) [paragraph]
                paragraph_words
          end
        else
          chunk_loop self target_words rest chunks
            (current_chunk_paragraphs ++ [paragraph])
            (current_word_count + paragraph_words)
  end.

(** [TextChunker.chunk_text] *)
Definition chunk_text (self : TextChunker) (text : str)
  : option (list BookChunk) :=
  if is_empty (strip text) then Some []
  else
    match target_words self with
    | None => None
    | Some target_words =>
        let paragraphs := split_nl2 text in
        chunk_loop self target_words paragraphs [] [] 0
    end.

(* ===================================================================== *)
(** * src/services/progress.py *)
(* ===================================================================== *)

(** The JSON object stored for one book: each key is present or absent. *)
Record book_data := mkBookData {
  bd_current_chunk : option Z;
  bd_total_chunks : option Z;
  bd_reading_days : option Z;
  bd_completed : option bool
}.

Definition empty_book_data : book_data := mkBookData None None None None.

(** The JSON object of [progress.json]: its ["books"] key is present or
    absent. *)
Record progress_data := mkProgressData {
  pd_books : option (gmap string book_data)
}.

(** The progress file: [None] when it does not exist. *)
Definition progress_file := option progress_data.

(** [ProgressService.load_progress] *)
Definition load_progress (file : progress_file) : progress_data :=
  match file with
  | Some d => d
  | None => mkProgressData (Some ∅)
  end.

(** [ProgressService.save_progress] *)
Definition save_progress (d : progress_data) : progress_file := Some d.

(** [ProgressService.get_book_progress]; [progress_data["books"]] raises
    [KeyError] when the key is absent. *)
Definition get_book_progress (file : progress_file) (book_filename : string)
  : option BookProgress :=
  match pd_books (load_progress file) with
  | None => None
  | Some books =>
      let book_data := default empty_book_data (books !! book_filename) in
      Some (mkBookProgress
              (default 0 (bd_current_chunk book_data))
              (default 0 (bd_total_chunks book_data))
              (default 0 (bd_reading_days book_data))
              (default false (bd_completed book_data)))
  end.

(** The first two [if] statements shared by both writers: make sure that
    ["books"] and the book's entry exist. *)
Definition ensure_book (d : progress_data) (book_filename : string)
  : gmap string book_data :=
  let books := default ∅ (pd_books d) in
  match books !! book_filename with
  | None => <[book_filename := empty_book_data]> books
  | Some _ => books
  end.

(** [ProgressService.update_book_progress]: the snapshot it returns and the
    file it leaves. *)
Definition update_book_progress (file : progress_file)
    (book_filename : string) (total : Z)
  : option (BookProgress * progress_file) :=
  let books := ensure_book (load_progress file) book_filename in
  match get_book_progress file book_filename with
  | None => None
  | Some book_progress =>
      let book_progress := set_total_chunks book_progress total in
      let book_progress := mark_chunk_read book_progress in
      let books :=
        <[book_filename :=
            mkBookData (Some (current_chunk book_progress))
                       (Some (total_chunks book_progress))
                       (Some (reading_days book_progress))
                       (Some (completed book_progress))]> books in
      Some (book_progress, save_progress (mkProgressData (Some books)))
  end.

(** [ProgressService.set_book_total_chunks] *)
Definition set_book_total_chunks (file : progress_file)
    (book_filename : string) (total : Z) : progress_file :=
  let books := ensure_book (load_progress file) book_filename in
  let entry := default empty_book_data (books !! book_filename) in
  let entry :=
    mkBookData (bd_current_chunk entry) (Some total)
               (bd_reading_days entry) (bd_completed entry) in
  save_progress (mkProgressData (Some (<[book_filename := entry]> books))).

(* ===================================================================== *)
(** * Vocabulary of the statements *)
(* ===================================================================== *)

(** A string literal as a Python string (one code point per byte). *)
Definition lit (s : string) : str :=
  map N_of_ascii (list_ascii_of_string s).

(** The paragraphs the loop of [chunk_text] works on: the pieces between
    paragraph separators, trimmed, the empty ones skipped. *)
Definition paragraphs (text : str) : list str :=
  List.filter (fun p => negb (is_empty p)) (map strip (split_nl2 text)).

(** Sum of the word counts of a list of paragraphs. *)
Definition word_sum (ps : list str) : Z :=
  fold_right (fun p acc => count_words p + acc) 0 ps.

Definition sum_Z (l : list Z) : Z := fold_right Z.add 0 l.

(** The two writers of the tracker, as calls on a named book. *)
Inductive tracker_op :=
| Advance (book : string) (total : Z)
| SetTotalUnits (book : string) (total : Z).



Definition run_op (file : progress_file) (o : tracker_op)
  : option progress_file :=
  match o with
  | Advance b n => snd <$> update_book_progress file b n
  | SetTotalUnits b n => Some (set_book_total_chunks file b n)
  end.

Fixpoint run_ops (file : progress_file) (ops : list tracker_op)
  : option progress_file :=
  match ops with
  | [] => Some file
  | o :: rest =>
      match run_op file o with
      | None => None
      | Some file' => run_ops file' rest
      end
  end.

(** Successive [update_book_progress] calls on one book: the snapshots
    returned, in call order, and the file left by the last call. *)
Fixpoint advance_all (file : progress_file) (book : string) (totals : list Z)
  : option (list BookProgress * progress_file) :=
  match totals with
  | [] => Some ([], file)
  | n :: rest =>
      match update_book_progress file book n with
      | None => None
      | Some (snapshot, file') =>
          match advance_all file' book rest with
          | None => None
          | Some (snapshots, file'') => Some (snapshot :: snapshots, file'')
          end
      end
  end.

(** What [advance_all] returns, computed on the record alone. *)
Fixpoint snapshots_from (p : BookProgress) (totals : list Z)
  : list BookProgress :=
  match totals with
  | [] => []
  | n :: rest =>
      let q := mark_chunk_read (set_total_chunks p n) in
      q :: snapshots_from q rest
  end.

(** A progress file the service itself can have written (or none yet): the
    ["books"] key is there. *)
Definition well_formed (file : progress_file) : Prop :=
  is_Some (pd_books (load_progress file)).

(** The record [get_book_progress] builds for a book never seen. *)
Definition fresh_progress : BookProgress := mkBookProgress 0 0 0 false.


(** Strings made of white space only, and strings without any. *)
Definition all_space (s : str) : Prop := Forall (fun c => isspace c = true) s.
Definition no_space (s : str) : Prop := Forall (fun c => isspace c = false) s.

(** [has_nl2 s]: the paragraph separator occurs in [s]. *)
Fixpoint has_nl2 (s : str) : bool :=
  match s with
  | [] => false
  | c :: s' =>
      match s' with
      | d :: _ => (c =? NL)%N && (d =? NL)%N || has_nl2 s'
      | [] => false
      end
  end.

(** What the loop of [chunk_text] keeps of a piece: a non-empty trimmed
    string without a paragraph separator inside. *)
Definition paragraph_ok (p : str) : Prop :=
  p <> [] /\ strip p = p /\ has_nl2 p = false.

(** A group of paragraphs closed as one unit: it is not empty, and it is a
    single paragraph or fits the word budget. *)
Definition group_ok (target : Z) (g : list str) : Prop :=
  g <> [] /\ (length g = 1%nat \/ word_sum g <= target).

(** The unit made from a group of paragraphs. *)
Definition unit_of (u : BookChunk) (g : list str) : Prop :=
  content u = join NL2 g /\ word_count u = word_sum g.

(** The paragraphs the loop keeps of a list of pieces. *)
Definition kept_paragraphs (ps : list str) : list str :=
  List.filter (fun p => negb (is_empty p)) (map strip ps).

(** A line without a newline character. *)
Definition nl_free (s : str) : Prop := Forall (fun c => c <> NL) s.

(** A line as [clean_text] leaves it: no newline inside, trimmed, blanks
    collapsed. *)
Definition line_ok (line : str) : Prop :=
  nl_free line /\ strip line = line /\ sub_blanks false line = line.

(** [math.floor(x)] on a number: the largest integer not above it. *)
Definition py_floor (x : py_number) : option Z :=
  match x with
  | PyInt n => Some n
  | PyFloat (S754_zero _) => Some 0
  | PyFloat (S754_finite s m e) => Some (Z.shiftl (cond_Zopp s (Zpos m)) e)
  | PyFloat _ => None
  end.

(** floor(targetMinutes * wordsPerMinute), the product being the one the
    code computes. *)
Definition target_floor (self : TextChunker) : option Z :=
  match py_mul (target_reading_time self) (words_per_minute self) with
  | None => None
  | Some product => py_floor product
  end.

(** An infinity or a NaN. *)
Definition not_finite (x : spec_float) : bool :=
  match x with
  | S754_infinity _ | S754_nan => true
  | _ => false
  end.

(** The double nearest to [m * 2^e]. *)
Definition double (m e : Z) : spec_float :=
  binary_normalize float_prec float_emax m e false.

(** A chunker with a budget of floor(1.5 * 2) = 3 words, and a text of four
    paragraphs of 4, 1, 2 and 1 words with a blank piece among them. *)
Definition example_chunker : TextChunker :=
  mkTextChunker (PyFloat (double 3 (-1))) 2.

(** The double written [0.7], which is a little below seven tenths. *)
Definition double_0_7 : spec_float :=
  S754_finite false 6305039478318694 (-53).

Definition example_text : str :=
  lit "a b c d" ++ NL2 ++ lit " e " ++ NL2 ++ [NL] ++ lit "f g" ++ NL2
  ++ lit "  " ++ NL2 ++ lit "h".

(* ===================================================================== *)
(** * More of the source *)
(* ===================================================================== *)

(** ** src/utils.py: [split_into_sentences] *)

(** The class [[.!?]] and the class [[A-Z]] of the sentence pattern. *)
Definition is_terminator (c : char) : bool :=
  ((c =? 46) || (c =? 33) || (c =? 63))%N.

Definition is_upper (c : char) : bool := ((65 <=? c) && (c <=? 90))%N.

(** [re.sub(r'([.!?])\s+([A-Z])', r'\1\n\2', s)], read left to right.
    [pending] is [Some ws] after a terminator has been written: [ws] is the
    white space read since, held back until the next character tells
    whether the pattern matches (a capital follows at least one white
    space character: the white space becomes one newline) or not (the
    white space is written as it was). *)
Fixpoint sub_sentence_breaks (pending : option str) (s : str) : str :=
  match s with
  | [] => default [] pending
  | c :: s' =>
      let next := if is_terminator c then Some [] else None in
      match pending with
      | Some ws =>
          if isspace c then sub_sentence_breaks (Some (ws ++ [c])) s'
          else if negb (is_empty ws) && is_upper c then
            NL :: c :: sub_sentence_breaks None s'
          else ws ++ c :: sub_sentence_breaks next s'
      | None => c :: sub_sentence_breaks next s'
      end
  end.

(** [split_into_sentences] *)
Definition split_into_sentences (text : str) : list str :=
  if is_empty (strip text) then []
  else
    let text := sub_sentence_breaks None text in
    let sentences := split_nl text in
    List.filter (fun s => negb (is_empty s)) (map strip sentences).

(** ** src/processors/epub.py: [EpubProcessor._clean_whitespace] *)

Definition _clean_whitespace (text : str) : str :=
  let lines := split_nl text in
  let cleaned_lines := map clean_line lines in
  let text := join [NL] cleaned_lines in
  sub_newlines 0 text.

(** ** src/services/progress.py: [get_reading_statistics] *)

Record reading_statistics := mkStatistics {
  active_books : Z;
  completed_books : Z;
  total_reading_days : Z
}.

(** The body of the [for book_data in ...values()] loop. *)
Definition count_book (book_data : book_data) (acc : reading_statistics)
  : reading_statistics :=
  let days := total_reading_days acc + default 0 (bd_reading_days book_data) in
  if default false (bd_completed book_data) then
    mkStatistics (active_books acc) (completed_books acc + 1) days
  else
    mkStatistics (active_books acc + 1) (completed_books acc) days.

(** The loop over [books.values()], from the three counters at zero. *)
Definition statistics_of (books : gmap string book_data) : reading_statistics :=
  map_fold (fun _ book_data acc => count_book book_data acc)
           (mkStatistics 0 0 0) books.

(** [ProgressService.get_reading_statistics]; [progress_data.get("books", {})]
    reads a missing key as no book at all. *)
Definition get_reading_statistics (file : progress_file) : reading_statistics :=
  let books := default ∅ (pd_books (load_progress file)) in
  statistics_of books.

(** ** src/processors/chunker.py: [chunk_to_dict], and the chunk file *)

(** One entry of the ["chunks"] list of a chunk file. *)
Record chunk_dict := mkChunkDict {
  cd_index : Z;
  cd_content : str;
  cd_word_count : Z;
  cd_estimated_reading_time : Q
}.

(** [TextChunker.chunk_to_dict] *)
Definition chunk_to_dict (chunks : list BookChunk) : list chunk_dict :=
  map (fun chunk =>
         mkChunkDict (index chunk) (content chunk) (word_count chunk)
                     (estimated_reading_time chunk)) chunks.

(** The object [process_book_command] saves as [<stem>_chunks.json]. *)
Record chunk_data := mkChunkData {
  title : string;
  chunks : list chunk_dict;
  total_chunks_saved : Z;
  total_words : Z;
  total_reading_time : Q
}.

(** ** src/main.py: [process_book_command], from the cleaning of the file's
    content on *)

Definition sum_Q (l : list Q) : Q := fold_right Qplus 0%Q l.

(** Lines 70-113: [content] is what was read from the file, [stem] and
    [name] are [path.stem] and [path.name], [chunker] is built from the
    settings.  Returns the chunk file written and the progress file left;
    [None] when [chunk_text] raises. *)
Definition process_book (chunker : TextChunker) (stem name : string)
    (content : str) (file : progress_file)
  : option (chunk_data * progress_file) :=
  let content := clean_text content in
  let word_count := count_words content in
  match chunk_text chunker content with
  | None => None
  | Some chunks =>
      let total_time := sum_Q (map estimated_reading_time chunks) in
      let data :=
        mkChunkData stem (chunk_to_dict chunks) (Z.of_nat (length chunks))
                    word_count total_time in
      Some (data, set_book_total_chunks file name (Z.of_nat (length chunks)))
  end.

(** ** src/main.py: [read_daily_command], from the loaded chunk file on *)

(** [l[i]] on a Python list: a negative index counts from the end, an index
    out of range raises [IndexError]. *)
Definition py_index {A} (l : list A) (i : Z) : option A :=
  let n := Z.of_nat (length l) in
  if (0 <=? i) && (i <? n) then nth_error l (Z.to_nat i)
  else if (- n <=? i) && (i <? 0) then nth_error l (Z.to_nat (n + i))
  else None.

(** The dictionary handed to [EmailService.send_daily_chunk]. *)
Record email_progress := mkEmailProgress {
  ep_day : Z;
  ep_current_chunk : Z;
  ep_total_chunks : Z
}.

(** What one run shows: the completion notice, or the day's chunk with the
    day number, the position in the book, the percentage, whether it is
    the last chunk, and the e-mail request when one is made. *)
Inductive reading_outcome :=
| BookCompleted
| DailyReading (chunk : chunk_dict) (day : Z) (position : Z)
               (progress_pct : Q) (is_final : bool)
               (email : option (chunk_dict * email_progress)).

(** Lines 141-193: [data] is the loaded chunk file, [enable_email] the
    setting of that name.  Returns what is shown and the progress file
    left; [None] when an exception is raised. *)
Definition read_daily (data : chunk_data) (enable_email : bool)
    (file : progress_file) (book_filename : string) (send : bool)
  : option (reading_outcome * progress_file) :=
  match get_book_progress file book_filename with
  | None => None
  | Some progress =>
      let n := Z.of_nat (length (chunks data)) in
      if n <=? current_chunk progress then Some (BookCompleted, file)
      else
        match py_index (chunks data) (current_chunk progress) with
        | None => None
        | Some chunk =>
            let progress_pct :=
              (inject_Z (current_chunk progress + 1) / inject_Z n * 100)%Q in
            let is_final := n <=? current_chunk progress + 1 in
            let day := reading_days progress + 1 in
            let position := current_chunk progress + 1 in
            if send then
              match update_book_progress file book_filename n with
              | None => None
              | Some (_, file') =>
                  let email :=
                    if enable_email then
                      Some (chunk, mkEmailProgress day position n)
                    else None in
                  Some (DailyReading chunk day position progress_pct
                                     is_final email, file')
              end
            else
              Some (DailyReading chunk day position progress_pct is_final
                                 None, file)
        end
  end.

(** [runs] successive runs of [read_daily_command] with [--send]: what each
    showed, in order, and the progress file left. *)
Fixpoint read_daily_runs (data : chunk_data) (enable_email : bool)
    (file : progress_file) (book_filename : string) (runs : nat)
  : option (list reading_outcome * progress_file) :=
  match runs with
  | O => Some ([], file)
  | S runs' =>
      match read_daily data enable_email file book_filename true with
      | None => None
      | Some (shown, file') =>
          match read_daily_runs data enable_email file' book_filename runs' with
          | None => None
          | Some (rest, file'') => Some (shown :: rest, file'')
          end
      end
  end.

(** The chunk a run showed, if it showed one. *)
Definition shown_chunk (o : reading_outcome) : option chunk_dict :=
  match o with
  | BookCompleted => None
  | DailyReading chunk _ _ _ _ _ => Some chunk
  end.

(** ** Vocabulary of the further properties *)

(** The record a book reads as, also when the file cannot be read for it. *)
Definition progress_or_fresh (file : progress_file) (book : string)
  : BookProgress :=
  default fresh_progress (get_book_progress file book).

(** A unit so full that the next paragraph did not fit: the test the loop
    makes before it closes a unit. *)
Fixpoint closed_when_full (target : Z) (gs : list (list str)) : Prop :=
  match gs with
  | g :: rest =>
      match rest with
      | g' :: _ =>
          (exists p more, g' = p :: more
                          /\ target < word_sum g + count_words p)
          /\ closed_when_full target rest
      | [] => True
      end
  | [] => True
  end.

(** The word begun, closed by a white space character. *)
Definition flush_word (w : str) : list str := if is_empty w then [] else [w].

(** Occurrences of two and of three given characters in a row. *)
Fixpoint has_pair (a b : char) (s : str) : bool :=
  match s with
  | [] => false
  | c :: s' =>
      match s' with
      | d :: _ => (c =? a)%N && (d =? b)%N || has_pair a b s'
      | [] => false
      end
  end.

Fixpoint has_nl3 (s : str) : bool :=
  match s with
  | [] => false
  | c :: s' =>
      match s' with
      | d :: e :: _ => (c =? NL)%N && (d =? NL)%N && (e =? NL)%N || has_nl3 s'
      | _ => false
      end
  end.

(* ===================================================================== *)
(** * Facts on Python strings *)
(* ===================================================================== *)

Section Strip.

Implicit Types (s r : str) (c d : char).

Lemma isspace_NL : isspace NL = true.
Proof. reflexivity. Qed.

Lemma is_blank_isspace c : is_blank c = true -> isspace c = true.
Proof.
  unfold is_blank. intros H. apply orb_true_iff in H as [H|H];
    apply N.eqb_eq in H; subst; reflexivity.
Qed.

Lemma is_empty_true {A} (l : list A) : is_empty l = true <-> l = [].
Proof. destruct l; simpl; split; congruence. Qed.

Lemma is_empty_false {A} (l : list A) : is_empty l = false <-> l <> [].
Proof. destruct l; simpl; split; congruence. Qed.

Lemma rstrip_cons_keep c s :
  isspace c = false -> rstrip (c :: s) = c :: rstrip s.
Proof. simpl. intros ->. destruct (rstrip s); reflexivity. Qed.

Lemma rstrip_all_space s : all_space s -> rstrip s = [].
Proof.
  induction 1 as [|c s Hc _ IH]; simpl; [reflexivity|].
  rewrite IH, Hc. reflexivity.
Qed.

Lemma rstrip_nil_all_space s : rstrip s = [] -> all_space s.
Proof.
  induction s as [|c s IH]; simpl; [constructor|].
  destruct (rstrip s) eqn:E; [|discriminate].
  destruct (isspace c) eqn:Ec; [|discriminate].
  intros _. constructor; [exact Ec|apply IH; reflexivity].
Qed.

Lemma rstrip_app s r :
  rstrip (s ++ r) = if is_empty (rstrip r) then rstrip s else s ++ rstrip r.
Proof.
  induction s as [|c s IH]; simpl.
  - destruct (rstrip r); reflexivity.
  - rewrite IH. destruct (rstrip r) eqn:E; simpl; [reflexivity|].
    destruct s; reflexivity.
Qed.

Lemma rstrip_snoc_keep s d :
  isspace d = false -> rstrip (s ++ [d]) = s ++ [d].
Proof. intros Hd. rewrite rstrip_app. simpl. rewrite Hd. reflexivity. Qed.

Lemma rstrip_app_space s r : all_space r -> rstrip (s ++ r) = rstrip s.
Proof. intros H. rewrite rstrip_app, (rstrip_all_space r H). reflexivity. Qed.

(** A non-empty result of [rstrip] ends with a character that is not
    white space. *)
Lemma rstrip_last s :
  rstrip s = [] \/ exists r d, rstrip s = r ++ [d] /\ isspace d = false.
Proof.
  induction s as [|c s IH]; simpl; [auto|].
  destruct IH as [->|(r & d & -> & Hd)].
  - destruct (isspace c) eqn:Ec; [auto|].
    right. exists [], c. auto.
  - right. exists (c :: r), d. split; [|exact Hd].
    destruct r; reflexivity.
Qed.

Lemma rstrip_decomp s : exists t, s = rstrip s ++ t /\ all_space t.
Proof.
  induction s as [|c s (t & Hs & Ht)]; simpl.
  - exists []. split; [reflexivity|constructor].
  - destruct (rstrip s) eqn:E.
    + destruct (isspace c) eqn:Ec.
      * exists (c :: s). split; [reflexivity|].
        constructor; [exact Ec|]. simpl in Hs. subst t. exact Ht.
      * exists t. simpl in *. split; congruence.
    + exists t. split; [|exact Ht]. simpl. f_equal. exact Hs.
Qed.

Lemma rstrip_idem s : rstrip (rstrip s) = rstrip s.
Proof.
  destruct (rstrip_last s) as [->|(r & d & -> & Hd)]; [reflexivity|].
  apply rstrip_snoc_keep, Hd.
Qed.

Lemma lstrip_decomp s : exists l, s = l ++ lstrip s /\ all_space l.
Proof.
  induction s as [|c s (l & Hs & Hl)]; simpl.
  - exists []. split; [reflexivity|constructor].
  - destruct (isspace c) eqn:Ec.
    + exists (c :: l). split; [simpl; congruence|constructor; auto].
    + exists []. split; [reflexivity|constructor].
Qed.

Lemma lstrip_head s c r : lstrip s = c :: r -> isspace c = false.
Proof.
  induction s as [|c' s IH]; simpl; [discriminate|].
  destruct (isspace c') eqn:Ec; [exact IH|].
  intros [= <- _]. exact Ec.
Qed.

Lemma lstrip_cons_keep c s : isspace c = false -> lstrip (c :: s) = c :: s.
Proof. simpl. intros ->. reflexivity. Qed.

Lemma lstrip_all_space s : all_space s -> lstrip s = [].
Proof. induction 1 as [|c s Hc _ IH]; simpl; [|rewrite Hc]; auto. Qed.

(** What [strip] returns is empty, or begins and ends with characters
    that are not white space. *)
Lemma strip_shape s :
  strip s = []
  \/ exists c r, strip s = c :: r /\ isspace c = false
                 /\ exists r' d, strip s = r' ++ [d] /\ isspace d = false.
Proof.
  unfold strip. destruct (lstrip s) as [|c u] eqn:E; [left; reflexivity|].
  right. pose proof (lstrip_head _ _ _ E) as Hc.
  rewrite rstrip_cons_keep by exact Hc.
  exists c, (rstrip u). repeat split; auto.
  destruct (rstrip_last u) as [->|(r' & d & -> & Hd)].
  - exists [], c. auto.
  - exists (c :: r'), d. auto.
Qed.

Lemma strip_decomp s :
  exists l t, s = l ++ strip s ++ t /\ all_space l /\ all_space t.
Proof.
  destruct (lstrip_decomp s) as (l & Hs & Hl).
  destruct (rstrip_decomp (lstrip s)) as (t & Hu & Ht).
  exists l, t. unfold strip. rewrite <- Hu. auto.
Qed.

(** A string that begins and ends outside white space is left alone. *)
Lemma strip_fixed_ends c r r' d :
  c :: r = r' ++ [d] -> isspace c = false -> isspace d = false ->
  strip (c :: r) = c :: r.
Proof.
  intros E Hc Hd. unfold strip. rewrite lstrip_cons_keep by exact Hc.
  rewrite E. apply rstrip_snoc_keep, Hd.
Qed.

Lemma strip_idem s : strip (strip s) = strip s.
Proof.
  destruct (strip_shape s) as [->|(c & r & E & Hc & r' & d & E' & Hd)];
    [reflexivity|].
  rewrite E. apply (strip_fixed_ends c r r' d); congruence.
Qed.

Lemma strip_nil_all_space s : strip s = [] -> all_space s.
Proof.
  intros H. destruct (strip_decomp s) as (l & t & Hs & Hl & Ht).
  rewrite H in Hs. rewrite Hs. simpl. apply Forall_app; auto.
Qed.

Lemma strip_all_space s : all_space s -> strip s = [].
Proof. intros H. unfold strip. rewrite lstrip_all_space; auto. Qed.

Lemma strip_no_space s : no_space s -> strip s = s.
Proof.
  intros H. destruct s as [|c r]; [reflexivity|].
  destruct (exists_last (l := c :: r)) as (r' & d & E); [discriminate|].
  apply (strip_fixed_ends c r r' d E).
  - inversion H; auto.
  - rewrite E in H. apply Forall_app in H as [_ H]. inversion H; auto.
Qed.

End Strip.

Section Words.

Implicit Types (s r w : str) (c d : char).

Lemma split_ws_from_app_space w s c r :
  isspace c = true ->
  split_ws_from w (s ++ c :: r) = split_ws_from w s ++ split_ws_from [] r.
Proof.
  intros Hc. revert w.
  induction s as [|a s IH]; intros w; simpl.
  - rewrite Hc. destruct (is_empty w); reflexivity.
  - destruct (isspace a); [|apply IH].
    destruct (is_empty w); simpl; rewrite IH; reflexivity.
Qed.

Lemma split_ws_all_space s : all_space s -> split_ws_from [] s = [].
Proof. induction 1 as [|c s Hc _ IH]; simpl; [|rewrite Hc]; auto. Qed.

Lemma split_ws_from_space_r w s r :
  all_space r -> split_ws_from w (s ++ r) = split_ws_from w s.
Proof.
  intros [|c r' Hc Hr'].
  - rewrite app_nil_r. reflexivity.
  - rewrite split_ws_from_app_space by exact Hc.
    rewrite (split_ws_all_space r' Hr'), app_nil_r. reflexivity.
Qed.

Lemma split_ws_space_l s r :
  all_space s -> split_ws_from [] (s ++ r) = split_ws_from [] r.
Proof. induction 1 as [|c s Hc _ IH]; simpl; [|rewrite Hc]; auto. Qed.

Lemma split_ws_from_started w s : w <> [] -> split_ws_from w s <> [].
Proof.
  revert w. induction s as [|c s IH]; intros w Hw; simpl.
  - destruct w; [congruence|discriminate].
  - destruct (isspace c).
    + destruct w; [congruence|discriminate].
    + apply IH. destruct w; discriminate.
Qed.

(** Every word of [split()] is non-empty and free of white space. *)
Lemma split_ws_from_words w s :
  no_space w ->
  Forall (fun x => x <> [] /\ no_space x) (split_ws_from w s).
Proof.
  revert w. induction s as [|c s IH]; intros w Hw; simpl.
  - destruct w; simpl; constructor; [|constructor]. split; [discriminate|exact Hw].
  - destruct (isspace c) eqn:Ec.
    + destruct w; simpl; [apply IH; constructor|].
      constructor; [split; [discriminate|exact Hw]|apply IH; constructor].
    + apply IH. apply Forall_app. split; [exact Hw|]. repeat constructor. exact Ec.
Qed.

(** The filter of [count_words] keeps every word. *)
Lemma count_words_length s : count_words s = Z.of_nat (length (split_ws s)).
Proof.
  unfold count_words.
  destruct (is_empty (strip s)) eqn:E.
  - apply is_empty_true, strip_nil_all_space in E.
    unfold split_ws. rewrite (split_ws_all_space s E). reflexivity.
  - do 2 f_equal. unfold split_ws.
    pose proof (split_ws_from_words [] s ltac:(constructor)) as H.
    induction H as [|x l [Hx Hns] _ IH]; simpl; [reflexivity|].
    rewrite (strip_no_space x Hns).
    destruct x; [congruence|]. simpl. f_equal. exact IH.
Qed.

Lemma count_words_nonneg s : 0 <= count_words s.
Proof. rewrite count_words_length. lia. Qed.

Lemma count_words_all_space s : all_space s -> count_words s = 0.
Proof.
  intros H. rewrite count_words_length. unfold split_ws.
  rewrite split_ws_all_space by exact H. reflexivity.
Qed.

Lemma count_words_app_space s c r :
  isspace c = true ->
  count_words (s ++ c :: r) = count_words s + count_words r.
Proof.
  intros Hc. rewrite !count_words_length. unfold split_ws.
  rewrite split_ws_from_app_space by exact Hc.
  rewrite length_app. lia.
Qed.

Lemma count_words_strip s : count_words (strip s) = count_words s.
Proof.
  destruct (strip_decomp s) as (l & t & Hs & Hl & Ht).
  rewrite Hs at 2. rewrite !count_words_length. unfold split_ws.
  rewrite split_ws_space_l by exact Hl.
  rewrite split_ws_from_space_r by exact Ht. reflexivity.
Qed.

(** A string with a character outside white space has a word. *)
Lemma count_words_pos s : strip s <> [] -> 1 <= count_words s.
Proof.
  intros H. rewrite <- count_words_strip.
  destruct (strip_shape s) as [E|(c & r & E & Hc & _)]; [congruence|].
  rewrite E, count_words_length. unfold split_ws. simpl. rewrite Hc.
  pose proof (split_ws_from_started [c] r ltac:(discriminate)) as Hne.
  destruct (split_ws_from [c] r); [congruence|]. simpl. lia.
Qed.

Lemma count_words_app_NL2 s r :
  count_words (s ++ NL2 ++ r) = count_words s + count_words r.
Proof.
  unfold NL2. simpl.
  rewrite count_words_app_space by reflexivity.
  change (NL :: r) with ([] ++ NL :: r).
  rewrite (count_words_app_space [] NL r) by reflexivity.
  rewrite (count_words_all_space []) by constructor. lia.
Qed.

Lemma count_words_join ps : count_words (join NL2 ps) = word_sum ps.
Proof.
  induction ps as [|p ps IH].
  - apply count_words_all_space. constructor.
  - destruct ps as [|q ps].
    + simpl. lia.
    + change (join NL2 (p :: q :: ps)) with (p ++ NL2 ++ join NL2 (q :: ps)).
      rewrite count_words_app_NL2, IH. reflexivity.
Qed.

Lemma word_sum_app ps qs : word_sum (ps ++ qs) = word_sum ps + word_sum qs.
Proof. induction ps as [|p ps IH]; simpl; lia. Qed.

Lemma word_sum_nonneg ps : 0 <= word_sum ps.
Proof.
  induction ps as [|p ps IH]; simpl; [lia|].
  pose proof (count_words_nonneg p). lia.
Qed.

Lemma word_sum_In p ps : In p ps -> count_words p <= word_sum ps.
Proof.
  induction ps as [|q ps IH]; simpl; [tauto|].
  pose proof (count_words_nonneg q) as Hq.
  pose proof (word_sum_nonneg ps) as Hps.
  intros [->|Hin]; [lia|]. apply IH in Hin. lia.
Qed.

End Words.

Section Paragraphs.

Implicit Types (s r p : str) (c d : char) (ps : list str).

Lemma str_pair_ind (P : str -> Prop) :
  P [] -> (forall c, P [c]) ->
  (forall c d s, P s -> P (d :: s) -> P (c :: d :: s)) ->
  forall s, P s.
Proof.
  intros H0 H1 H2 s.
  enough (P s /\ forall c, P (c :: s)) by tauto.
  induction s as [|d s [IH1 IH2]]; split; auto.
Qed.

Lemma join_cons_head sep c (l : list str) :
  join sep (cons_head c l) = c :: join sep l.
Proof. destruct l as [|h [|h' t]]; reflexivity. Qed.

Lemma split_nl2_cons c d s :
  split_nl2 (c :: d :: s)
  = if (c =? NL)%N && (d =? NL)%N then [] :: split_nl2 s
    else cons_head c (split_nl2 (d :: s)).
Proof. reflexivity. Qed.

Lemma split_nl2_not_nil s : split_nl2 s <> [].
Proof.
  destruct s as [|c [|d s]]; simpl; try discriminate.
  destruct (_ && _); [discriminate|].
  destruct (match s with [] => _ | _ => _ end); discriminate.
Qed.

Lemma join_split_nl2 s : join NL2 (split_nl2 s) = s.
Proof.
  induction s as [| c | c d s IH1 IH2] using str_pair_ind;
    [reflexivity|reflexivity|].
  rewrite split_nl2_cons.
  destruct ((c =? NL)%N && (d =? NL)%N) eqn:Ecd.
  - apply andb_true_iff in Ecd as [Hc Hd].
    apply N.eqb_eq in Hc, Hd. subst c d.
    destruct (split_nl2 s) as [|h t] eqn:E.
    + destruct (split_nl2_not_nil s E).
    + change (join NL2 ([] :: h :: t)) with (NL2 ++ join NL2 (h :: t)).
      rewrite IH1. reflexivity.
  - rewrite join_cons_head, IH2. reflexivity.
Qed.

(** The first piece is empty or begins with the text's first character. *)
Lemma split_nl2_head c s h t :
  split_nl2 (c :: s) = h :: t -> h = [] \/ exists h', h = c :: h'.
Proof.
  destruct s as [|d s]; simpl.
  - intros [= <- _]. eauto.
  - destruct (_ && _); [intros [= <- _]; auto|].
    destruct (match s with [] => _ | _ => _ end); simpl;
      intros [= <- _]; eauto.
Qed.

Lemma has_nl2_cons c d s :
  has_nl2 (c :: d :: s) = (c =? NL)%N && (d =? NL)%N || has_nl2 (d :: s).
Proof. reflexivity. Qed.

(** No piece of [split('\n\n')] contains the separator. *)
Lemma split_nl2_pieces s :
  Forall (fun p => has_nl2 p = false) (split_nl2 s).
Proof.
  induction s as [| c | c d s IH1 IH2] using str_pair_ind.
  - repeat constructor.
  - repeat constructor.
  - rewrite split_nl2_cons.
    destruct ((c =? NL)%N && (d =? NL)%N) eqn:E.
    + constructor; [reflexivity|exact IH1].
    + destruct (split_nl2 (d :: s)) as [|h t] eqn:Es;
        [repeat constructor|].
      simpl. inversion IH2 as [|? ? Hh Ht]; subst.
      constructor; [|exact Ht].
      destruct (split_nl2_head _ _ _ _ Es) as [->|[h' ->]]; [reflexivity|].
      rewrite has_nl2_cons, E, Hh. reflexivity.
Qed.

Lemma has_nl2_app s r :
  has_nl2 (s ++ r) = false -> has_nl2 s = false /\ has_nl2 r = false.
Proof.
  induction s as [|c s IH]; simpl app; [auto|].
  destruct s as [|d s].
  - simpl. destruct r as [|d r]; [auto|].
    intros H. apply orb_false_iff in H as [_ H]. auto.
  - change ((c :: d :: s) ++ r) with (c :: d :: (s ++ r)).
    rewrite !has_nl2_cons. intros H.
    apply orb_false_iff in H as [H1 H2].
    destruct (IH H2) as [H3 H4]. rewrite H1, H3. auto.
Qed.

Lemma has_nl2_strip s : has_nl2 s = false -> has_nl2 (strip s) = false.
Proof.
  intros H. destruct (strip_decomp s) as (l & t & Hs & _ & _).
  rewrite Hs in H. apply has_nl2_app in H as [_ H].
  apply has_nl2_app in H as [H _]. exact H.
Qed.

Lemma split_nl2_single p : has_nl2 p = false -> split_nl2 p = [p].
Proof.
  induction p as [| c | c d p _ IH] using str_pair_ind;
    [reflexivity|reflexivity|].
  rewrite has_nl2_cons, split_nl2_cons. intros H.
  apply orb_false_iff in H as [-> H]. rewrite (IH H). reflexivity.
Qed.

(** A separator after a piece that contains none and does not end with a
    newline is found where it was put. *)
Lemma split_nl2_app_sep p r :
  has_nl2 p = false -> List.last p SP <> NL ->
  split_nl2 (p ++ NL2 ++ r) = p :: split_nl2 r.
Proof.
  induction p as [| c | c d p _ IH] using str_pair_ind; intros Hp Hl.
  - reflexivity.
  - simpl in Hl. change ([c] ++ NL2 ++ r) with (c :: NL :: NL :: r).
    rewrite split_nl2_cons.
    apply N.eqb_neq in Hl. rewrite Hl. reflexivity.
  - change ((c :: d :: p) ++ NL2 ++ r) with (c :: d :: (p ++ NL2 ++ r)).
    rewrite split_nl2_cons. rewrite has_nl2_cons in Hp.
    apply orb_false_iff in Hp as [-> Hp].
    change (d :: p ++ NL2 ++ r) with ((d :: p) ++ NL2 ++ r).
    rewrite IH; [reflexivity|exact Hp|exact Hl].
Qed.

Lemma paragraph_ok_last p : paragraph_ok p -> List.last p SP <> NL.
Proof.
  intros (Hne & Hs & _).
  destruct (strip_shape p) as [E|(_ & _ & _ & _ & r' & d & E & Hd)];
    [congruence|].
  rewrite Hs in E. rewrite E, last_last. intros ->. discriminate.
Qed.

Lemma split_nl2_join ps :
  ps <> [] -> Forall paragraph_ok ps -> split_nl2 (join NL2 ps) = ps.
Proof.
  induction ps as [|p ps IH]; [congruence|]. intros _ H.
  inversion H as [|? ? Hp Hps]; subst.
  destruct ps as [|q ps].
  - simpl. apply split_nl2_single, Hp.
  - change (join NL2 (p :: q :: ps)) with (p ++ NL2 ++ join NL2 (q :: ps)).
    rewrite split_nl2_app_sep;
      [|apply Hp|apply paragraph_ok_last, Hp].
    rewrite IH; [reflexivity|discriminate|exact Hps].
Qed.

Lemma map_strip_ok ps : Forall paragraph_ok ps -> map strip ps = ps.
Proof.
  induction 1 as [|p ps (_ & Hs & _) _ IH]; simpl; [|rewrite Hs, IH]; auto.
Qed.

Lemma filter_ok ps :
  Forall paragraph_ok ps ->
  List.filter (fun p => negb (is_empty p)) ps = ps.
Proof.
  induction 1 as [|p ps (Hne & _) _ IH]; simpl; [reflexivity|].
  destruct p; [congruence|]. simpl. rewrite IH. reflexivity.
Qed.

(** The paragraphs of a text are well formed. *)
Lemma paragraphs_ok s : Forall paragraph_ok (paragraphs s).
Proof.
  unfold paragraphs.
  pose proof (split_nl2_pieces s) as H.
  induction H as [|p ps Hp _ IH]; simpl; [constructor|].
  destruct (strip p) eqn:E; simpl; [exact IH|].
  constructor; [|exact IH]. rewrite <- E.
  split; [congruence|]. split; [apply strip_idem|apply has_nl2_strip, Hp].
Qed.

(** Joining well-formed paragraphs and splitting again gives them back. *)
Lemma paragraphs_join ps :
  Forall paragraph_ok ps -> paragraphs (join NL2 ps) = ps.
Proof.
  intros H. destruct ps as [|p ps]; [reflexivity|].
  unfold paragraphs. rewrite split_nl2_join by (auto; discriminate).
  rewrite map_strip_ok by exact H. apply filter_ok, H.
Qed.

Lemma word_sum_paragraphs s : word_sum (paragraphs s) = count_words s.
Proof.
  rewrite <- (join_split_nl2 s) at 2. rewrite count_words_join.
  unfold paragraphs. induction (split_nl2 s) as [|p ps IH]; simpl; [reflexivity|].
  rewrite <- (count_words_strip p).
  destruct (strip p) eqn:E; simpl.
  - rewrite IH. rewrite (count_words_all_space []) by constructor. lia.
  - rewrite IH. reflexivity.
Qed.

Lemma paragraphs_blank s : strip s = [] -> paragraphs s = [].
Proof.
  intros H. pose proof (word_sum_paragraphs s) as Hw.
  rewrite (count_words_all_space s) in Hw by (apply strip_nil_all_space, H).
  pose proof (paragraphs_ok s) as Hok.
  destruct (paragraphs s) as [|p ps]; [reflexivity|].
  inversion Hok as [|? ? (Hne & Hs & _) _]; subst. simpl in Hw.
  pose proof (count_words_pos p ltac:(congruence)).
  pose proof (word_sum_nonneg ps). lia.
Qed.

End Paragraphs.

#[local] Arguments join : simpl never.

(* ===================================================================== *)
(** * Facts on [clean_text] *)
(* ===================================================================== *)

Section Lines.

Implicit Types (s r line : str) (c d : char) (ls : list str).

Lemma split_nl_not_nil s : split_nl s <> [].
Proof.
  destruct s as [|c s]; simpl; [discriminate|].
  destruct (c =? NL)%N; [discriminate|].
  destruct (split_nl s); discriminate.
Qed.

Lemma join_cons sep line l ls :
  join sep (line :: l :: ls) = line ++ sep ++ join sep (l :: ls).
Proof. reflexivity. Qed.

Lemma join_split_nl s : join [NL] (split_nl s) = s.
Proof.
  induction s as [|c s IH]; [reflexivity|]. simpl.
  destruct (N.eqb_spec c NL) as [->|Hc].
  - destruct (split_nl s) as [|l ls] eqn:E;
      [destruct (split_nl_not_nil s E)|].
    rewrite join_cons, IH. reflexivity.
  - rewrite join_cons_head, IH. reflexivity.
Qed.

Lemma split_nl_pieces s : Forall nl_free (split_nl s).
Proof.
  induction s as [|c s IH]; simpl; [repeat constructor|].
  destruct (N.eqb_spec c NL) as [->|Hc].
  - constructor; [constructor|exact IH].
  - destruct IH as [|l ls Hl Hls]; simpl; repeat constructor; auto.
Qed.

Lemma split_nl_free line : nl_free line -> split_nl line = [line].
Proof.
  induction 1 as [|c s Hc _ IH]; [reflexivity|]. simpl.
  apply N.eqb_neq in Hc. rewrite Hc, IH. reflexivity.
Qed.

Lemma split_nl_app line r :
  nl_free line -> split_nl (line ++ NL :: r) = line :: split_nl r.
Proof.
  induction 1 as [|c s Hc _ IH]; simpl; [reflexivity|].
  apply N.eqb_neq in Hc. rewrite Hc, IH. reflexivity.
Qed.

Lemma split_nl_join ls :
  ls <> [] -> Forall nl_free ls -> split_nl (join [NL] ls) = ls.
Proof.
  induction ls as [|l ls IH]; [congruence|]. intros _ H.
  inversion H as [|? ? Hl Hls]; subst.
  destruct ls as [|l' ls].
  - apply split_nl_free, Hl.
  - rewrite join_cons. simpl app. rewrite split_nl_app by exact Hl.
    rewrite IH; [reflexivity|discriminate|exact Hls].
Qed.

End Lines.

Section CleanLine.

Implicit Types (s r line : str) (c d : char) (ls : list str).

Lemma is_blank_not_NL c : is_blank c = true -> c <> NL.
Proof.
  unfold is_blank. intros H ->. discriminate.
Qed.

Lemma nonspace_not_blank c : isspace c = false -> is_blank c = false.
Proof.
  intros H. destruct (is_blank c) eqn:E; [|reflexivity].
  apply is_blank_isspace in E. congruence.
Qed.

(** Collapsing blanks twice is collapsing them once. *)
Lemma sub_blanks_idem s :
  (forall b, sub_blanks false (sub_blanks b s) = sub_blanks b s)
  /\ sub_blanks true (sub_blanks true s) = sub_blanks true s.
Proof.
  induction s as [|c s [IHa IHb]]; [split; [intros []|]; reflexivity|].
  split.
  - intros b. simpl. destruct (is_blank c) eqn:Ec.
    + destruct b; [apply IHa|].
      simpl. rewrite IHb. reflexivity.
    + simpl. rewrite Ec, IHa. reflexivity.
  - simpl. destruct (is_blank c) eqn:Ec; [exact IHb|].
    simpl. rewrite Ec, IHa. reflexivity.
Qed.

Lemma sub_blanks_snoc b s d :
  is_blank d = false -> sub_blanks b (s ++ [d]) = sub_blanks b s ++ [d].
Proof.
  intros Hd. revert b. induction s as [|c s IH]; intros b; simpl.
  - rewrite Hd. reflexivity.
  - destruct (is_blank c); [destruct b|]; rewrite IH; reflexivity.
Qed.

Lemma sub_blanks_nl_free b s : nl_free s -> nl_free (sub_blanks b s).
Proof.
  intros H. revert b. induction H as [|c s Hc _ IH]; intros b; simpl;
    [constructor|].
  destruct (is_blank c); [destruct b|].
  - apply IH.
  - constructor; [discriminate|apply IH].
  - constructor; [exact Hc|apply IH].
Qed.

Lemma strip_nl_free s : nl_free s -> nl_free (strip s).
Proof.
  intros H. destruct (strip_decomp s) as (l & t & Hs & _ & _).
  unfold nl_free in H. rewrite Hs in H.
  apply Forall_app in H as [_ H]. apply Forall_app in H as [H _]. exact H.
Qed.

(** [clean_line] leaves a line in normal form. *)
Lemma clean_line_ok line : nl_free line -> line_ok (clean_line line).
Proof.
  intros H. unfold clean_line. split; [|split].
  - apply sub_blanks_nl_free, strip_nl_free, H.
  - destruct (strip_shape line)
      as [->|(c & r & E & Hc & r' & d & E' & Hd)]; [reflexivity|].
    pose proof (nonspace_not_blank c Hc) as Hbc.
    pose proof (nonspace_not_blank d Hd) as Hbd.
    rewrite E at 1 2. simpl. rewrite Hbc.
    apply (strip_fixed_ends c _ (sub_blanks false r') d); auto.
    rewrite <- (sub_blanks_snoc false r' d Hbd), <- E', E. simpl.
    rewrite Hbc. reflexivity.
  - apply sub_blanks_idem.
Qed.

Lemma clean_line_fixed line : line_ok line -> clean_line line = line.
Proof. intros (_ & Hs & Hb). unfold clean_line. rewrite Hs. exact Hb. Qed.

Lemma line_ok_nil : line_ok [].
Proof. repeat split. constructor. Qed.

Lemma line_ok_lstrip line : line_ok line -> lstrip line = line.
Proof.
  intros (_ & Hs & _).
  destruct (strip_shape line) as [E|(c & r & E & Hc & _)]; rewrite Hs in E;
    rewrite E; [reflexivity|apply lstrip_cons_keep, Hc].
Qed.

Lemma line_ok_rstrip line : line_ok line -> rstrip line = line.
Proof.
  intros (_ & Hs & _).
  destruct (strip_shape line) as [E|(_ & _ & _ & _ & r' & d & E & Hd)];
    rewrite Hs in E; rewrite E; [reflexivity|apply rstrip_snoc_keep, Hd].
Qed.

Lemma line_ok_head c line : line_ok (c :: line) -> isspace c = false.
Proof.
  intros H. apply line_ok_lstrip in H. simpl in H.
  destruct (isspace c) eqn:Ec; [|reflexivity].
  pose proof (lstrip_decomp line) as (l & Hl & _).
  apply (f_equal (@length _)) in H. apply (f_equal (@length _)) in Hl.
  rewrite length_app in Hl. simpl in H. lia.
Qed.

End CleanLine.

Section CleanText.

Implicit Types (s r t line : str) (c d : char) (ls : list str) (k : nat).

Lemma sub_class_double s : sub_class double_quote_class DQUOTE s = s.
Proof.
  unfold sub_class. rewrite <- (List.map_id s) at 2.
  apply List.map_ext. intros c. simpl.
  destruct (N.eqb_spec c DQUOTE) as [->|]; reflexivity.
Qed.

Lemma sub_class_single s : sub_class single_quote_class SQUOTE s = s.
Proof.
  unfold sub_class. rewrite <- (List.map_id s) at 2.
  apply List.map_ext. intros c. simpl.
  destruct (N.eqb_spec c SQUOTE) as [->|]; reflexivity.
Qed.

Lemma sub_newlines_length k s :
  (length (sub_newlines k s) <= length s)%nat.
Proof.
  revert k. induction s as [|c s IH]; intros k; simpl; [lia|].
  pose proof (IH (S k)) as H1. pose proof (IH 0%nat) as H0.
  destruct (c =? NL)%N; [destruct (k <? 2)%nat|]; simpl; lia.
Qed.

Lemma sub_newlines_saturated k k' s :
  (2 <= k)%nat -> (2 <= k')%nat -> sub_newlines k s = sub_newlines k' s.
Proof.
  revert k k'. induction s as [|c s IH]; intros k k' Hk Hk'; simpl;
    [reflexivity|].
  destruct (c =? NL)%N; [|reflexivity].
  destruct (Nat.ltb_spec k 2), (Nat.ltb_spec k' 2); try lia.
  apply IH; lia.
Qed.

Lemma sub_newlines_idem k s :
  sub_newlines k (sub_newlines k s) = sub_newlines k s.
Proof.
  revert k. induction s as [|c s IH]; intros k; simpl; [reflexivity|].
  destruct (N.eqb_spec c NL) as [->|Hc].
  - destruct (Nat.ltb_spec k 2) as [Hk|Hk].
    + simpl. apply Nat.ltb_lt in Hk. rewrite Hk, IH. reflexivity.
    + rewrite (sub_newlines_saturated k (S k)) by lia. apply IH.
  - simpl. apply N.eqb_neq in Hc. rewrite Hc, IH. reflexivity.
Qed.

(** A text that the newline step leaves alone is left alone from any
    earlier position of a run. *)
Lemma sub_newlines_fixed_le k k' s :
  sub_newlines k s = s -> (k' <= k)%nat -> sub_newlines k' s = s.
Proof.
  revert k k'. induction s as [|c s IH]; intros k k' H Hle; simpl in *;
    [reflexivity|].
  destruct (N.eqb_spec c NL) as [->|Hc]; [|exact H].
  destruct (Nat.ltb_spec k 2) as [Hk|Hk].
  - destruct (Nat.ltb_spec k' 2); [|lia].
    injection H as H. f_equal. apply (IH (S k)); [exact H|lia].
  - pose proof (sub_newlines_length (S k) s) as Hlen.
    rewrite H in Hlen. simpl in Hlen. lia.
Qed.

Lemma sub_newlines_lstrip s :
  sub_newlines 0 s = s -> sub_newlines 0 (lstrip s) = lstrip s.
Proof.
  induction s as [|c s IH]; intros H; simpl; [reflexivity|].
  destruct (isspace c); [|exact H].
  apply IH. simpl in H. destruct (N.eqb_spec c NL) as [->|Hc].
  - injection H as H. apply (sub_newlines_fixed_le 1); [exact H|lia].
  - injection H as H. exact H.
Qed.

Lemma rstrip_cons_cases c s :
  rstrip (c :: s) = []
  \/ (rstrip (c :: s) = [c] /\ isspace c = false)
  \/ rstrip (c :: s) = c :: rstrip s.
Proof.
  simpl. destruct (rstrip s); [|auto].
  destruct (isspace c); auto.
Qed.

Lemma sub_newlines_rstrip k s :
  sub_newlines k s = s -> sub_newlines k (rstrip s) = rstrip s.
Proof.
  revert k. induction s as [|c s IH]; intros k H; [reflexivity|].
  destruct (rstrip_cons_cases c s) as [->|[[-> Hc]| ->]]; [reflexivity| |].
  - simpl. destruct (N.eqb_spec c NL) as [->|]; [discriminate|reflexivity].
  - simpl in *. destruct (N.eqb_spec c NL) as [->|Hc].
    + destruct (Nat.ltb_spec k 2) as [Hk|Hk].
      * injection H as H. f_equal. apply IH, H.
      * pose proof (sub_newlines_length (S k) s) as Hlen.
        rewrite H in Hlen. simpl in Hlen. lia.
    + injection H as H. f_equal. apply IH, H.
Qed.

Lemma sub_newlines_strip s :
  sub_newlines 0 s = s -> sub_newlines 0 (strip s) = strip s.
Proof. intros H. apply sub_newlines_rstrip, sub_newlines_lstrip, H. Qed.

Lemma sub_newlines_line k line r :
  nl_free line ->
  sub_newlines k (line ++ r)
  = line ++ sub_newlines (if is_empty line then k else 0%nat) r.
Proof.
  intros H. revert k. induction H as [|c s Hc _ IH]; intros k; simpl;
    [reflexivity|].
  apply N.eqb_neq in Hc. rewrite Hc, IH.
  destruct s; reflexivity.
Qed.

(** On a text given by its lines, the newline step, [lstrip] and
    [rstrip] only remove empty lines. *)
Lemma sub_newlines_lines ls : forall k,
  ls <> [] -> Forall line_ok ls ->
  exists ls', ls' <> [] /\ Forall line_ok ls'
              /\ sub_newlines k (join [NL] ls) = join [NL] ls'.
Proof.
  induction ls as [|l ls IH]; [congruence|]. intros k _ H.
  inversion H as [|? ? Hl Hls]; subst.
  destruct ls as [|l' ls].
  - exists [l]. split; [discriminate|]. split; [exact H|].
    change (join [NL] [l]) with l. rewrite <- (app_nil_r l) at 1.
    rewrite sub_newlines_line by apply Hl. simpl. apply app_nil_r.
  - rewrite join_cons. rewrite sub_newlines_line by apply Hl.
    set (k' := if is_empty l then k else 0%nat).
    change ([NL] ++ join [NL] (l' :: ls)) with (NL :: join [NL] (l' :: ls)).
    simpl sub_newlines.
    destruct (IH (S k') ltac:(discriminate) Hls) as (ls' & Hne & Hok & ->).
    destruct (Nat.ltb_spec k' 2) as [Hk|Hk].
    + exists (l :: ls'). split; [discriminate|].
      split; [constructor; auto|].
      destruct ls'; [congruence|]. reflexivity.
    + exists ls'. split; [exact Hne|]. split; [exact Hok|].
      destruct l; [reflexivity|]. simpl in k'. lia.
Qed.

Lemma lstrip_lines ls :
  ls <> [] -> Forall line_ok ls ->
  exists ls', ls' <> [] /\ Forall line_ok ls'
              /\ lstrip (join [NL] ls) = join [NL] ls'.
Proof.
  induction ls as [|l ls IH]; [congruence|]. intros _ H.
  inversion H as [|? ? Hl Hls]; subst.
  destruct ls as [|l' ls].
  - exists [l]. split; [discriminate|]. split; [exact H|].
    apply line_ok_lstrip, Hl.
  - rewrite join_cons. destruct l as [|c l].
    + simpl. apply IH; [discriminate|exact Hls].
    + exists ((c :: l) :: l' :: ls). split; [discriminate|].
      split; [exact H|]. rewrite join_cons. simpl.
      rewrite (line_ok_head c l Hl). reflexivity.
Qed.

Lemma rstrip_lines ls :
  ls <> [] -> Forall line_ok ls ->
  exists ls', ls' <> [] /\ Forall line_ok ls'
              /\ rstrip (join [NL] ls) = join [NL] ls'.
Proof.
  induction ls as [|l ls IH]; [congruence|]. intros _ H.
  inversion H as [|? ? Hl Hls]; subst.
  destruct ls as [|l' ls].
  - exists [l]. split; [discriminate|]. split; [exact H|].
    apply line_ok_rstrip, Hl.
  - rewrite join_cons, rstrip_app.
    destruct (IH ltac:(discriminate) Hls) as (ls' & Hne & Hok & E).
    change ([NL] ++ join [NL] (l' :: ls)) with (NL :: join [NL] (l' :: ls)).
    simpl rstrip. rewrite E.
    destruct (join [NL] ls') as [|d r] eqn:Ej; simpl.
    + exists [l]. split; [discriminate|].
      split; [constructor; [exact Hl|constructor]|].
      apply line_ok_rstrip, Hl.
    + exists (l :: ls'). split; [discriminate|].
      split; [constructor; auto|].
      destruct ls'; [congruence|]. rewrite join_cons, Ej. reflexivity.
Qed.

(** A text whose lines are in normal form is left alone by the line
    step of [clean_text]. *)
Lemma clean_lines_fixed ls :
  Forall line_ok ls -> map clean_line ls = ls.
Proof.
  induction 1 as [|l ls Hl _ IH]; simpl; [reflexivity|].
  rewrite (clean_line_fixed l Hl), IH. reflexivity.
Qed.

Lemma clean_lines_ok ls :
  Forall nl_free ls -> Forall line_ok (map clean_line ls).
Proof.
  induction 1 as [|l ls Hl _ IH]; simpl; constructor;
    [apply clean_line_ok, Hl|exact IH].
Qed.

Lemma lines_ok_nl_free ls : Forall line_ok ls -> Forall nl_free ls.
Proof. apply List.Forall_impl. intros l Hl. apply Hl. Qed.

(** What [clean_text] returns is made of lines in normal form, and is
    left alone by the newline step and by [strip]. *)
Lemma clean_text_normal text :
  exists ls,
    ls <> [] /\ Forall line_ok ls
    /\ clean_text text = join [NL] ls
    /\ sub_newlines 0 (clean_text text) = clean_text text
    /\ strip (clean_text text) = clean_text text.
Proof.
  unfold clean_text. destruct text as [|c text].
  { exists [[]]. split; [discriminate|].
    split; [constructor; [apply line_ok_nil|constructor]|].
    simpl. auto. }
  cbn [is_empty]. rewrite sub_class_double, sub_class_single.
  set (ls0 := map clean_line (split_nl (c :: text))).
  assert (Hne0 : ls0 <> []).
  { unfold ls0. pose proof (split_nl_not_nil (c :: text)).
    destruct (split_nl (c :: text)); [congruence|discriminate]. }
  assert (Hok0 : Forall line_ok ls0).
  { apply clean_lines_ok, split_nl_pieces. }
  destruct (sub_newlines_lines ls0 0%nat Hne0 Hok0) as (ls1 & Hne1 & Hok1 & E1).
  destruct (lstrip_lines ls1 Hne1 Hok1) as (ls2 & Hne2 & Hok2 & E2).
  destruct (rstrip_lines ls2 Hne2 Hok2) as (ls3 & Hne3 & Hok3 & E3).
  exists ls3. split; [exact Hne3|]. split; [exact Hok3|].
  split; [unfold strip; rewrite E1, E2, E3; reflexivity|].
  split; [apply sub_newlines_strip, sub_newlines_idem|apply strip_idem].
Qed.

End CleanText.

(* ===================================================================== *)
(** * Facts on the chunker *)
(* ===================================================================== *)

Section Chunker.

Variable self : TextChunker.
Variable target : Z.

Lemma _create_chunk_spec i s c :
  _create_chunk self i s = Some c ->
  index c = i /\ content c = s /\ word_count c = count_words s.
Proof.
  unfold _create_chunk. destruct (_ =? _); [discriminate|].
  intros [= <-]. auto.
Qed.

Lemma _create_chunk_returns i s :
  words_per_minute self <> 0 -> is_Some (_create_chunk self i s).
Proof.
  intros H. unfold _create_chunk.
  destruct (Z.eqb_spec (words_per_minute self) 0); [contradiction|eauto].
Qed.

(** The loop returns whenever the reading speed is not zero. *)
Lemma chunk_loop_returns ps : forall chunks cur cnt,
  words_per_minute self <> 0 ->
  is_Some (chunk_loop self target ps chunks cur cnt).
Proof.
  induction ps as [|p ps IH]; intros chunks cur cnt Hw; simpl.
  - destruct (negb (is_empty cur)); [|eauto].
    destruct (_create_chunk_returns (Z.of_nat (length chunks))
                (join NL2 cur) Hw) as [c ->]. eauto.
  - destruct (is_empty (strip p)); [apply IH, Hw|].
    destruct (_ && _); [|apply IH, Hw].
    destruct (_create_chunk_returns (Z.of_nat (length chunks))
                (join NL2 cur) Hw) as [c ->]. apply IH, Hw.
Qed.

(** What the loop returns: the chunks it was given, followed by one unit
    per group of a partition of the buffered and the remaining
    paragraphs, numbered from the number of chunks it was given. *)
Lemma chunk_loop_spec ps : forall chunks cur cnt res,
  cnt = word_sum cur ->
  (length cur <= 1)%nat \/ word_sum cur <= target ->
  chunk_loop self target ps chunks cur cnt = Some res ->
  exists gs new,
    res = chunks ++ new
    /\ Forall2 unit_of new gs
    /\ map index new = map Z.of_nat (seq (length chunks) (length new))
    /\ concat gs = cur ++ kept_paragraphs ps
    /\ Forall (group_ok target) gs.
Proof.
  induction ps as [|p ps IH]; intros chunks cur cnt res Hcnt Hcur; simpl.
  - destruct cur as [|q cur]; simpl.
    + intros [= <-]. exists [], []. rewrite app_nil_r.
      repeat split; constructor.
    + destruct (_create_chunk _ _ _) as [c|] eqn:Ec; [|discriminate].
      intros [= <-]. apply _create_chunk_spec in Ec as (Hi & Hc & Hwc).
      exists [q :: cur], [c]. split; [reflexivity|].
      split; [|split; [|split]].
      * repeat constructor; [exact Hc|].
        rewrite Hwc. apply count_words_join.
      * simpl. congruence.
      * unfold kept_paragraphs. simpl. rewrite !app_nil_r. reflexivity.
      * constructor; [|constructor]. split; [discriminate|].
        destruct Hcur as [Hcur|Hcur]; [left; simpl in *; lia|right; exact Hcur].
  - unfold kept_paragraphs; simpl. fold (kept_paragraphs ps).
    destruct (strip p) as [|a sp] eqn:Ep; simpl; [apply IH; assumption|].
    rewrite <- Ep.
    destruct ((target <? cnt + count_words (strip p))
              && negb (is_empty cur)) eqn:Econd.
    + apply andb_true_iff in Econd as [_ Hne].
      destruct (_create_chunk _ _ _) as [c|] eqn:Ec; [|discriminate].
      apply _create_chunk_spec in Ec as (Hi & Hc & Hwc).
      intros Hrun.
      apply IH in Hrun as (gs & new & -> & Hunits & Hidx & Hcat & Hgs);
        [|simpl; lia|left; simpl; lia].
      exists (cur :: gs), (c :: new).
      split; [rewrite <- app_assoc; reflexivity|].
      split; [|split; [|split]].
      * constructor; [|exact Hunits]. split; [exact Hc|].
        rewrite Hwc. apply count_words_join.
      * simpl. rewrite length_app in Hidx. simpl in Hidx.
        rewrite Nat.add_1_r in Hidx. rewrite Hidx, Hi. reflexivity.
      * simpl. rewrite Hcat. reflexivity.
      * constructor; [|exact Hgs].
        destruct cur as [|q cur]; [discriminate|].
        split; [discriminate|].
        destruct Hcur as [Hcur|Hcur]; [left; simpl in *; lia|right; exact Hcur].
    + intros Hrun.
      apply IH in Hrun as (gs & new & -> & Hunits & Hidx & Hcat & Hgs).
      * exists gs, new. repeat split; auto.
        rewrite Hcat, <- app_assoc. reflexivity.
      * rewrite word_sum_app. simpl. lia.
      * apply andb_false_iff in Econd as [Hfit|Hempty].
        -- right. rewrite word_sum_app. simpl.
           apply Z.ltb_ge in Hfit. lia.
        -- left. destruct cur; [simpl; lia|discriminate].
Qed.

Lemma kept_paragraphs_split s : kept_paragraphs (split_nl2 s) = paragraphs s.
Proof. reflexivity. Qed.

End Chunker.

Section ChunkText.

Variable self : TextChunker.

(** [chunk_text] returns when the word budget can be computed and the
    reading speed is not zero. *)
Lemma chunk_text_returns text :
  words_per_minute self <> 0 -> is_Some (target_words self) ->
  is_Some (chunk_text self text).
Proof.
  intros H [tw Htw]. unfold chunk_text. rewrite Htw.
  destruct (is_empty (strip text)); [eauto|].
  apply chunk_loop_returns, H.
Qed.

(** When [chunk_text] returns on a text that is not blank, the word
    budget was computed. *)
Lemma chunk_text_target text cs :
  chunk_text self text = Some cs -> strip text <> [] ->
  is_Some (target_words self).
Proof.
  unfold chunk_text. intros Hrun Hne.
  destruct (strip text); [congruence|]. cbn [is_empty] in Hrun.
  destruct (target_words self); [eauto|discriminate].
Qed.

(** The units of [chunk_text] are made, in order, from the groups of a
    partition of the text's paragraphs, and are numbered from zero. *)
Lemma chunk_text_spec text cs :
  chunk_text self text = Some cs ->
  exists gs,
    Forall2 unit_of cs gs
    /\ map index cs = map Z.of_nat (seq 0 (length cs))
    /\ concat gs = paragraphs text
    /\ Forall (fun g => g <> []
                        /\ forall tw, target_words self = Some tw ->
                                      group_ok tw g) gs
    /\ Forall (Forall paragraph_ok) gs.
Proof.
  unfold chunk_text.
  destruct (is_empty (strip text)) eqn:E.
  - intros [= <-]. exists []. apply is_empty_true in E.
    rewrite (paragraphs_blank text E). repeat split; constructor.
  - destruct (target_words self) as [tw|] eqn:Etw; [|discriminate].
    intros Hrun.
    apply chunk_loop_spec in Hrun
      as (gs & new & -> & Hunits & Hidx & Hcat & Hgs);
      [|reflexivity|left; simpl; lia].
    exists gs. simpl in *.
    split; [exact Hunits|]. split; [exact Hidx|]. split; [exact Hcat|].
    split.
    { eapply List.Forall_impl; [|exact Hgs]. intros g Hg.
      split; [apply Hg|]. intros tw' [= <-]. exact Hg. }
    pose proof (paragraphs_ok text) as Hok.
    rewrite <- kept_paragraphs_split, <- Hcat in Hok.
    clear -Hok. induction gs as [|g gs IH]; [constructor|].
    simpl in Hok. apply Forall_app in Hok as [Hg Hrest].
    constructor; auto.
Qed.

End ChunkText.

Section Units.

Variable self : TextChunker.

Lemma join_app sep (l1 l2 : list str) :
  l1 <> [] -> l2 <> [] ->
  join sep (l1 ++ l2) = join sep l1 ++ sep ++ join sep l2.
Proof.
  intros H1 H2. induction l1 as [|x l1 IH]; [congruence|].
  destruct l1 as [|y l1].
  - destruct l2; [congruence|]. reflexivity.
  - change (join sep ((x :: y :: l1) ++ l2))
      with (x ++ sep ++ join sep ((y :: l1) ++ l2)).
    rewrite IH by discriminate.
    change (join sep (x :: y :: l1)) with (x ++ sep ++ join sep (y :: l1)).
    rewrite <- !app_assoc. reflexivity.
Qed.

Lemma join_concat sep (gs : list (list str)) :
  Forall (fun g => g <> []) gs ->
  join sep (map (join sep) gs) = join sep (concat gs).
Proof.
  induction 1 as [|g gs Hg Hgs IH]; [reflexivity|].
  destruct gs as [|g' gs].
  - simpl. rewrite app_nil_r. reflexivity.
  - change (join sep (map (join sep) (g :: g' :: gs)))
      with (join sep g ++ sep ++ join sep (map (join sep) (g' :: gs))).
    rewrite IH. change (concat (g :: g' :: gs)) with (g ++ concat (g' :: gs)).
    rewrite join_app; [reflexivity|exact Hg|].
    inversion Hgs; subst. simpl. destruct g'; [congruence|discriminate].
Qed.

(** The groups behind the units can be read back from the units'
    contents. *)
Lemma chunk_text_groups text cs :
  chunk_text self text = Some cs ->
  let gs := map (fun u => paragraphs (content u)) cs in
  Forall2 unit_of cs gs
  /\ concat gs = paragraphs text
  /\ Forall (fun g => g <> []
                      /\ forall tw, target_words self = Some tw ->
                                    group_ok tw g) gs
  /\ Forall (Forall paragraph_ok) gs.
Proof.
  intros Hrun.
  destruct (chunk_text_spec self text cs Hrun)
    as (gs & Hunits & _ & Hcat & Hgs & Hok).
  assert (E : map (fun u => paragraphs (content u)) cs = gs).
  { clear -Hunits Hok.
    induction Hunits as [|u g cs gs [Hc _] _ IH]; [reflexivity|].
    inversion Hok as [|? ? Hg Hrest]; subst. simpl.
    rewrite Hc, (paragraphs_join g Hg), (IH Hrest). reflexivity. }
  simpl. rewrite E. auto.
Qed.

Lemma chunk_text_unit text cs u :
  chunk_text self text = Some cs -> In u cs ->
  let g := paragraphs (content u) in
  unit_of u g
  /\ (g <> [] /\ forall tw, target_words self = Some tw -> group_ok tw g)
  /\ Forall paragraph_ok g.
Proof.
  intros Hrun Hin.
  destruct (chunk_text_groups text cs Hrun) as (Hunits & _ & Hgs & Hok).
  clear Hrun. revert Hunits Hgs Hok Hin.
  induction cs as [|v cs IH]; simpl; [tauto|].
  intros Hunits Hgs Hok.
  inversion Hunits; subst. inversion Hgs; subst. inversion Hok; subst.
  intros [->|Hin]; auto.
Qed.

(** Flooring and truncating a number differ only below zero. *)
Lemma py_floor_int (x : py_number) (B : Z) :
  py_floor x = Some B ->
  exists T, py_int x = Some T /\ (B = T \/ (B <= T /\ T <= 0)).
Proof.
  destruct x as [n|[s|s| |s m e]]; simpl; try discriminate;
    intros [= <-]; eauto.
  destruct s; simpl; [|eauto].
  eexists. split; [reflexivity|]. right.
  destruct (Z.le_gt_cases 0 e) as [He|He].
  - rewrite !Z.shiftl_mul_pow2 by exact He.
    pose proof (Z.pow_pos_nonneg 2 e ltac:(lia) He). nia.
  - rewrite !Z.shiftl_div_pow2 by lia.
    pose proof (Z.pow_pos_nonneg 2 (- e) ltac:(lia) ltac:(lia)) as Hp.
    pose proof (Z.div_mod (Z.neg m) (2 ^ (- e)) ltac:(lia)) as H1.
    pose proof (Z.mod_pos_bound (Z.neg m) (2 ^ (- e)) Hp) as H2.
    pose proof (Z.div_mod (Z.pos m) (2 ^ (- e)) ltac:(lia)) as H3.
    pose proof (Z.mod_pos_bound (Z.pos m) (2 ^ (- e)) Hp) as H4.
    nia.
Qed.

Lemma py_int_floor (x : py_number) :
  is_Some (py_int x) -> is_Some (py_floor x).
Proof. destruct x as [n|[s|s| |s m e]]; simpl; intros [T H]; eauto. Qed.

(** The budget the code computes against the floor of the product. *)
Lemma target_floor_words (B : Z) :
  target_floor self = Some B ->
  exists T, target_words self = Some T /\ (B = T \/ (B <= T /\ T <= 0)).
Proof.
  unfold target_floor, target_words.
  destruct (py_mul _ _); [apply py_floor_int|discriminate].
Qed.

Lemma target_words_floor :
  is_Some (target_words self) -> is_Some (target_floor self).
Proof.
  unfold target_floor, target_words.
  destruct (py_mul _ _); [apply py_int_floor|intros [T H]; discriminate].
Qed.

End Units.

(* ===================================================================== *)
(** * Facts on the progress tracker *)
(* ===================================================================== *)

Section Tracker.

Implicit Types (file : progress_file) (book : string) (p q : BookProgress).

Lemma well_formed_fresh : well_formed None.
Proof. unfold well_formed; simpl; eauto. Qed.

Lemma get_book_progress_returns file book :
  well_formed file -> is_Some (get_book_progress file book).
Proof.
  unfold well_formed, get_book_progress.
  intros [books ->]; eauto.
Qed.

Lemma get_book_progress_fresh book :
  get_book_progress None book = Some fresh_progress.
Proof. reflexivity. Qed.

(** One [update_book_progress] call, seen through [get_book_progress]. *)
Lemma update_book_progress_spec file book n p :
  well_formed file ->
  get_book_progress file book = Some p ->
  exists file',
    update_book_progress file book n
      = Some (mark_chunk_read (set_total_chunks p n), file')
    /\ well_formed file'
    /\ get_book_progress file' book
       = Some (mark_chunk_read (set_total_chunks p n))
    /\ (forall other, other <> book ->
          get_book_progress file' other = get_book_progress file other).
Proof.
  intros [books Hb] Hget.
  unfold update_book_progress. rewrite Hget.
  eexists; split; [reflexivity|].
  split; [unfold well_formed; simpl; eauto|].
  split.
  - unfold get_book_progress; simpl.
    rewrite lookup_insert_eq; simpl.
    by destruct (mark_chunk_read _).
  - intros other Hne.
    unfold get_book_progress, ensure_book; simpl. rewrite Hb; simpl.
    rewrite lookup_insert_ne by done.
    destruct (books !! book) eqn:E; [done|].
    by rewrite lookup_insert_ne by done.
Qed.

(** One [set_book_total_chunks] call, seen through [get_book_progress]. *)
Lemma set_book_total_chunks_spec file book n p :
  well_formed file ->
  get_book_progress file book = Some p ->
  well_formed (set_book_total_chunks file book n)
  /\ get_book_progress (set_book_total_chunks file book n) book
     = Some (set_total_chunks p n)
  /\ (forall other, other <> book ->
        get_book_progress (set_book_total_chunks file book n) other
        = get_book_progress file other).
Proof.
  intros [books Hb] Hget.
  split; [unfold well_formed; simpl; eauto|].
  revert Hget.
  unfold get_book_progress, set_book_total_chunks, ensure_book; simpl.
  rewrite Hb; simpl. intros [= <-].
  destruct (books !! book) as [entry|] eqn:E; simpl.
  - split.
    + rewrite lookup_insert_eq, E; reflexivity.
    + intros other Hne. rewrite lookup_insert_ne by done. reflexivity.
  - split.
    + rewrite !lookup_insert_eq; reflexivity.
    + intros other Hne. rewrite !lookup_insert_ne by done. reflexivity.
Qed.

(** A run of [update_book_progress] calls always returns, and its
    snapshots are those of the record-level machine. *)
Lemma advance_all_spec totals : forall file book p,
  well_formed file ->
  get_book_progress file book = Some p ->
  exists file',
    advance_all file book totals = Some (snapshots_from p totals, file')
    /\ well_formed file'.
Proof.
  induction totals as [|n rest IH]; intros file book p Hwf Hget; simpl.
  - eauto.
  - destruct (update_book_progress_spec file book n p Hwf Hget)
      as (file1 & -> & Hwf1 & Hget1 & _).
    destruct (IH file1 book _ Hwf1 Hget1) as (file2 & -> & Hwf2).
    eauto.
Qed.

Lemma mark_chunk_read_current p :
  current_chunk p <= current_chunk (mark_chunk_read p).
Proof. unfold mark_chunk_read. destruct (_ <? _); simpl; lia. Qed.

Lemma mark_chunk_read_total p :
  total_chunks (mark_chunk_read p) = total_chunks p.
Proof. unfold mark_chunk_read. by destruct (_ <? _). Qed.

Lemma mark_chunk_read_bound p :
  current_chunk (mark_chunk_read p) <= total_chunks (mark_chunk_read p)
  <-> current_chunk p <= total_chunks p.
Proof.
  unfold mark_chunk_read.
  destruct (Z.ltb_spec (current_chunk p) (total_chunks p)); simpl; lia.
Qed.

End Tracker.

(* ===================================================================== *)
(** * The claims *)
(* ===================================================================== *)

(** ** Text normalisation *)

(** C7. [clean_text] is idempotent, and the empty string is cleaned to the
    empty string. *)
Theorem clean_text_idempotent :
  (forall x : str, clean_text (clean_text x) = clean_text x)
  /\ clean_text [] = [].
Proof.
  split; [|reflexivity]. intros x.
  destruct (clean_text_normal x) as (ls & Hne & Hok & E & Hnl & Hstrip).
  generalize dependent (clean_text x). intros y E Hnl Hstrip.
  unfold clean_text. destruct y as [|c y]; [reflexivity|]. cbn [is_empty].
  rewrite sub_class_double, sub_class_single, E.
  rewrite split_nl_join by (auto using lines_ok_nl_free).
  rewrite clean_lines_fixed by exact Hok.
  rewrite <- E, Hnl. exact Hstrip.
Qed.

(** ** The chunker *)

(** C6. When [chunk_text] returns n units, their index fields are
    0, 1, ..., n-1 in list order. *)
Theorem chunk_text_indices (self : TextChunker) (text : str)
    (cs : list BookChunk) :
  chunk_text self text = Some cs ->
  map index cs = map Z.of_nat (seq 0 (length cs)).
Proof.
  intros Hrun.
  destruct (chunk_text_spec self text cs Hrun) as (gs & _ & Hidx & _).
  exact Hidx.
Qed.

Lemma chunk_text_indices_witness :
  exists cs,
    chunk_text example_chunker example_text = Some cs
    /\ length cs = 3%nat
    /\ map index cs = map Z.of_nat (seq 0 (length cs)).
Proof.
  eexists. split; [vm_compute; reflexivity|]. split; [reflexivity|].
  apply (chunk_text_indices example_chunker example_text).
  vm_compute; reflexivity.
Defined.

(** C10. Every unit [chunk_text] returns has non-empty content holding at
    least one paragraph, and a word count of at least 1. *)
Theorem chunk_text_no_empty_unit (self : TextChunker) (text : str)
    (cs : list BookChunk) :
  chunk_text self text = Some cs ->
  Forall (fun u => content u <> []
                   /\ paragraphs (content u) <> []
                   /\ 1 <= word_count u) cs.
Proof.
  intros Hrun. apply List.Forall_forall. intros u Hin.
  destruct (chunk_text_unit self text cs u Hrun Hin)
    as ((Hc & Hwc) & (Hne & _) & Hok).
  destruct (paragraphs (content u)) as [|p g] eqn:Eg; [congruence|].
  assert (Hpos : 1 <= word_count u).
  { rewrite Hwc. simpl. inversion Hok as [|? ? (Hp & Hs & _) _]; subst.
    pose proof (count_words_pos p ltac:(congruence)).
    pose proof (word_sum_nonneg g). lia. }
  split; [|split; [discriminate|exact Hpos]].
  intros E. rewrite Hwc, <- count_words_join, <- Hc, E in Hpos.
  rewrite (count_words_all_space []) in Hpos by constructor. lia.
Qed.

Lemma chunk_text_no_empty_unit_witness :
  exists cs,
    chunk_text example_chunker example_text = Some cs
    /\ length cs = 3%nat
    /\ Forall (fun u => content u <> []
                        /\ paragraphs (content u) <> []
                        /\ 1 <= word_count u) cs.
Proof.
  eexists. split; [vm_compute; reflexivity|]. split; [reflexivity|].
  apply (chunk_text_no_empty_unit example_chunker example_text).
  vm_compute; reflexivity.
Defined.

(** C8. The word count of the whole text equals the sum of the word counts
    of the units [chunk_text] returns for it. *)
Theorem chunk_text_total_words (self : TextChunker) (text : str)
    (cs : list BookChunk) :
  chunk_text self text = Some cs ->
  count_words text = sum_Z (map word_count cs).
Proof.
  intros Hrun.
  destruct (chunk_text_spec self text cs Hrun)
    as (gs & Hunits & _ & Hcat & _).
  rewrite <- word_sum_paragraphs, <- Hcat. clear -Hunits.
  induction Hunits as [|u g cs gs [_ Hwc] _ IH]; [reflexivity|].
  simpl. rewrite word_sum_app, Hwc, IH. reflexivity.
Qed.

Lemma chunk_text_total_words_witness :
  exists cs,
    chunk_text example_chunker example_text = Some cs
    /\ count_words example_text = 8
    /\ count_words example_text = sum_Z (map word_count cs).
Proof.
  eexists. split; [vm_compute; reflexivity|]. split; [reflexivity|].
  apply (chunk_text_total_words example_chunker example_text).
  vm_compute; reflexivity.
Defined.

(** C5. The unit contents, joined with the paragraph separator, have
    exactly the paragraphs of the input text, in the same order: splitting
    the joined contents on the separator and trimming each piece gives the
    non-empty trimmed pieces of the input (and the single empty piece when
    there is no unit at all). *)
Theorem chunk_text_coverage (self : TextChunker) (text : str)
    (cs : list BookChunk) :
  chunk_text self text = Some cs ->
  paragraphs (join NL2 (map content cs)) = paragraphs text
  /\ map strip (split_nl2 (join NL2 (map content cs)))
     = (if is_empty cs then [[]] else paragraphs text).
Proof.
  intros Hrun.
  destruct (chunk_text_spec self text cs Hrun)
    as (gs & Hunits & _ & Hcat & Hgs & _).
  assert (Hjoin : join NL2 (map content cs) = join NL2 (paragraphs text)).
  { rewrite <- Hcat, <- join_concat.
    - f_equal. clear -Hunits.
      induction Hunits as [|u g cs gs [Hc _] _ IH]; [reflexivity|].
      simpl. rewrite Hc, IH. reflexivity.
    - eapply List.Forall_impl; [|exact Hgs]. intros g [Hne _]. exact Hne. }
  rewrite Hjoin. pose proof (paragraphs_ok text) as Hok.
  split; [apply paragraphs_join, Hok|].
  destruct Hunits as [|u g cs gs _ _]; simpl in *.
  - rewrite <- Hcat. reflexivity.
  - rewrite split_nl2_join; [apply map_strip_ok, Hok| |exact Hok].
    rewrite <- Hcat. inversion Hgs as [|? ? [Hne _] _]; subst.
    destruct g; [congruence|discriminate].
Qed.

Lemma chunk_text_coverage_witness :
  exists cs,
    chunk_text example_chunker example_text = Some cs
    /\ paragraphs example_text = [lit "a b c d"; lit "e"; lit "f g"; lit "h"]
    /\ paragraphs (join NL2 (map content cs)) = paragraphs example_text
    /\ map strip (split_nl2 (join NL2 (map content cs)))
       = (if is_empty cs then [[]] else paragraphs example_text).
Proof.
  eexists. split; [vm_compute; reflexivity|]. split; [reflexivity|].
  apply (chunk_text_coverage example_chunker example_text).
  vm_compute; reflexivity.
Defined.

(** C4. With targetWords = floor(targetMinutes * wordsPerMinute), the
    product being the one the code computes: every unit has
    wordCount <= targetWords unless it consists of a single paragraph whose
    own word count exceeds targetWords; each paragraph of the text lies in
    exactly one unit (the units' paragraphs, in order, are the text's
    paragraphs), and a paragraph whose word count exceeds targetWords is
    the whole content of its unit.  targetWords is defined whenever there
    is a unit. *)
Theorem chunk_text_budget (self : TextChunker) (text : str)
    (cs : list BookChunk) :
  chunk_text self text = Some cs ->
  concat (map (fun u => paragraphs (content u)) cs) = paragraphs text
  /\ (cs <> [] -> is_Some (target_floor self))
  /\ forall targetWords,
       target_floor self = Some targetWords ->
       Forall (fun u =>
         (word_count u <= targetWords
          \/ exists p, paragraphs (content u) = [p]
                       /\ targetWords < count_words p)
         /\ (forall p, In p (paragraphs (content u)) ->
                       targetWords < count_words p ->
                       content u = p)) cs.
Proof.
  intros Hrun.
  split; [apply (chunk_text_groups self text cs Hrun)|]. split.
  { intros Hcs. apply target_words_floor.
    apply (chunk_text_target self text cs Hrun).
    intros Hblank. apply Hcs. unfold chunk_text in Hrun.
    rewrite Hblank in Hrun. injection Hrun as <-. reflexivity. }
  intros B HB.
  destruct (target_floor_words self B HB) as (T & HT & Hrel).
  apply List.Forall_forall. intros u Hin.
  destruct (chunk_text_unit self text cs u Hrun Hin)
    as ((Hc & Hwc) & (Hne & Hfit) & Hok).
  destruct (Hfit T HT) as [_ Hfit'].
  set (g := paragraphs (content u)) in *.
  assert (Hone : forall p, In p g -> 1 <= count_words p).
  { intros p Hp. rewrite List.Forall_forall in Hok.
    destruct (Hok p Hp) as (Hpne & Hs & _).
    apply count_words_pos. congruence. }
  assert (Hsingle : length g = 1%nat ->
                    exists p, g = [p] /\ content u = p
                              /\ word_count u = count_words p).
  { intros Hlen. destruct g as [|p [|q g']]; try discriminate.
    exists p. rewrite Hc, Hwc. simpl. repeat split; lia. }
  split.
  - destruct Hfit' as [Hlen|Hsum].
    + destruct (Hsingle Hlen) as (p & -> & _ & Hwp).
      destruct (Z.le_gt_cases (word_count u) B); [auto|].
      right. exists p. split; [reflexivity|lia].
    + destruct Hrel as [->|[HBT HT0]]; [left; lia|].
      destruct g as [|p g']; [congruence|].
      specialize (Hone p ltac:(left; reflexivity)).
      pose proof (word_sum_nonneg g'). simpl in Hsum. lia.
  - intros p Hp Hbig.
    destruct Hfit' as [Hlen|Hsum].
    + destruct (Hsingle Hlen) as (q & Eg & Hcq & _).
      rewrite Eg in Hp. destruct Hp as [->|[]]. exact Hcq.
    + pose proof (word_sum_In p g Hp). specialize (Hone p Hp).
      destruct Hrel as [->|[HBT HT0]]; lia.
Qed.

Lemma chunk_text_budget_witness :
  exists cs,
    chunk_text example_chunker example_text = Some cs
    /\ map word_count cs = [4; 3; 1]
    /\ target_floor example_chunker = Some 3
    /\ concat (map (fun u => paragraphs (content u)) cs)
       = paragraphs example_text
    /\ (cs <> [] -> is_Some (target_floor example_chunker))
    /\ forall targetWords,
         target_floor example_chunker = Some targetWords ->
         Forall (fun u =>
           (word_count u <= targetWords
            \/ exists p, paragraphs (content u) = [p]
                         /\ targetWords < count_words p)
           /\ (forall p, In p (paragraphs (content u)) ->
                         targetWords < count_words p ->
                         content u = p)) cs.
Proof.
  eexists. split; [vm_compute; reflexivity|]. split; [reflexivity|].
  split; [reflexivity|].
  apply (chunk_text_budget example_chunker example_text).
  vm_compute; reflexivity.
Defined.

(** The budget follows the rounding of the double product: with a reading
    time of 0.7 and a speed of 10 the product rounds to 7.0, the budget is
    7, and two paragraphs of three and four words make one unit. *)
Example target_words_rounded :
  target_words (mkTextChunker (PyFloat double_0_7) 10) = Some 7
  /\ option_map (map word_count)
       (chunk_text (mkTextChunker (PyFloat double_0_7) 10)
          (lit "a b c" ++ NL2 ++ lit "d e f g"))
     = Some [7].
Proof. split; vm_compute; reflexivity. Qed.

(** The budget cannot be computed, and [chunk_text] raises on a text that
    is not blank, when the speed is too large for a double or the product
    overflows. *)
Example target_words_raises :
  target_words (mkTextChunker (PyFloat (double 10 0)) (10 ^ 400)) = None
  /\ target_words (mkTextChunker (PyFloat (double (10 ^ 308) 0)) 10) = None
  /\ target_words (mkTextChunker (PyInt 10) (10 ^ 400)) = Some (10 ^ 401)
  /\ chunk_text (mkTextChunker (PyFloat (double (10 ^ 308) 0)) 10) (lit "a")
     = None.
Proof. repeat split; vm_compute; reflexivity. Qed.

(** ** The progress tracker *)

(** C1. From a book with no tracked progress, three advances with
    [totalUnits = 3] return (1,1,false), (2,2,false), (3,3,true), and a
    fourth returns (3,3,true) again: current unit, reading days and the
    completed flag are unchanged. *)
Theorem advance_three_units_scenario (file : progress_file) (book : string) :
  well_formed file ->
  get_book_progress file book = Some fresh_progress ->
  exists file',
    advance_all file book [3; 3; 3; 3]
    = Some ([mkBookProgress 1 3 1 false;
             mkBookProgress 2 3 2 false;
             mkBookProgress 3 3 3 true;
             mkBookProgress 3 3 3 true], file').
Proof.
  intros Hwf Hget.
  destruct (advance_all_spec [3; 3; 3; 3] file book _ Hwf Hget)
    as (file' & Hrun & _).
  exists file'. exact Hrun.
Qed.

Lemma advance_three_units_scenario_witness :
  exists file',
    advance_all None "bookA" [3; 3; 3; 3]
    = Some ([mkBookProgress 1 3 1 false;
             mkBookProgress 2 3 2 false;
             mkBookProgress 3 3 3 true;
             mkBookProgress 3 3 3 true], file').
Proof.
  apply (advance_three_units_scenario None "bookA").
  - unfold well_formed; simpl; eauto.
  - reflexivity.
Defined.

(** C2, as stated, fails: on a fresh file the calls [advance(2)],
    [advance(2)], [advance(1)] leave currentUnit = 2 above totalUnits = 1. *)
Lemma advance_exceeds_total_counterexample :
  ~ (forall (book : string) (totals : list Z) snapshots file',
       Forall (fun n => 0 <= n) totals ->
       advance_all None book totals = Some (snapshots, file') ->
       Forall (fun q => current_chunk q <= total_chunks q) snapshots).
Proof.
  intros H.
  destruct (advance_all_spec [2; 2; 1] None "bookA" fresh_progress
              well_formed_fresh eq_refl) as (file' & Hrun & _).
  specialize (H "bookA" [2; 2; 1] _ file'
                ltac:(repeat constructor; lia) Hrun).
  simpl in H.
  apply Forall_cons_1 in H as [_ H].
  apply Forall_cons_1 in H as [_ H].
  apply Forall_cons_1 in H as [H _].
  vm_compute in H. apply H. reflexivity.
Qed.

(** C2, amended. Every run of advance calls on a book returns; currentUnit
    never decreases from one call to the next; each call stores its
    argument as totalUnits; and after a call currentUnit <= totalUnits holds
    exactly when the currentUnit held before the call was at most the
    call's argument. *)
Theorem advance_monotone (file : progress_file) (book : string)
    (totals : list Z) (p0 : BookProgress) :
  well_formed file ->
  get_book_progress file book = Some p0 ->
  exists snapshots file',
    advance_all file book totals = Some (snapshots, file')
    /\ length snapshots = length totals
    /\ forall (i : nat) p q n,
         (p0 :: snapshots) !! i = Some p ->
         snapshots !! i = Some q ->
         totals !! i = Some n ->
         current_chunk p <= current_chunk q
         /\ total_chunks q = n
         /\ (current_chunk q <= total_chunks q <-> current_chunk p <= n).
Proof.
  intros Hwf Hget.
  destruct (advance_all_spec totals file book p0 Hwf Hget)
    as (file' & Hrun & _).
  exists (snapshots_from p0 totals), file'.
  split; [exact Hrun|]. clear.
  split.
  - revert p0. induction totals as [|n rest IH]; intros p0; simpl; auto.
  - revert p0.
    induction totals as [|n rest IH]; intros p0 i p q m Hp Hq Hn.
    + destruct i; discriminate.
    + destruct i as [|i]; simpl in *.
      * injection Hp as <-. injection Hq as <-. injection Hn as <-.
        pose proof (mark_chunk_read_current (set_total_chunks p0 n)) as H1.
        pose proof (mark_chunk_read_bound (set_total_chunks p0 n)) as H2.
        rewrite mark_chunk_read_total in *. simpl in *.
        repeat split; tauto || lia.
      * eapply IH; eauto.
Qed.

Lemma advance_monotone_witness :
  exists snapshots file',
    advance_all None "bookA" [2; 2; 1] = Some (snapshots, file')
    /\ length snapshots = length [2; 2; 1]
    /\ forall (i : nat) p q n,
         (fresh_progress :: snapshots) !! i = Some p ->
         snapshots !! i = Some q ->
         [2; 2; 1] !! i = Some n ->
         current_chunk p <= current_chunk q
         /\ total_chunks q = n
         /\ (current_chunk q <= total_chunks q <-> current_chunk p <= n).
Proof.
  apply (advance_monotone None "bookA" [2; 2; 1] fresh_progress).
  - unfold well_formed; simpl; eauto.
  - reflexivity.
Defined.




(** C9, as stated, fails: with currentUnit = 2 and totalUnits = 1 the
    percentage is 200. *)
Lemma progress_percentage_counterexample :
  ~ (forall p : BookProgress,
       0 <= current_chunk p -> 0 <= total_chunks p ->
       (0 <= progress_percentage p)%Q /\ (progress_percentage p <= 100)%Q).
Proof.
  intros H.
  destruct (H (mkBookProgress 2 1 0 false)) as [_ H100]; simpl; try lia.
  vm_compute in H100. apply H100. reflexivity.
Qed.

(** C9, amended. For every record with non-negative currentUnit whose
    totalUnits is 0 or at least currentUnit, the displayed percentage lies
    in [0, 100]; this covers the state totalUnits = 0 < currentUnit, where
    the guard of the code answers 0. *)
Theorem progress_percentage_bounds (p : BookProgress) :
  0 <= current_chunk p ->
  total_chunks p = 0 \/ current_chunk p <= total_chunks p ->
  (0 <= progress_percentage p)%Q /\ (progress_percentage p <= 100)%Q.
Proof.
  intros H0 Hle. unfold progress_percentage.
  destruct (Z.eqb_spec (total_chunks p) 0) as [E|E].
  - split; discriminate.
  - destruct Hle as [Hz|Hle]; [contradiction|].
    destruct (total_chunks p) as [|t|t]; try lia.
    unfold Qle, Qdiv, Qmult, Qinv, inject_Z; simpl.
    split; nia.
Qed.

Lemma progress_percentage_bounds_witness :
  (0 <= progress_percentage (mkBookProgress 1 0 1 true))%Q
  /\ (progress_percentage (mkBookProgress 1 0 1 true) <= 100)%Q.
Proof.
  apply (progress_percentage_bounds (mkBookProgress 1 0 1 true)); simpl.
  - lia.
  - left. reflexivity.
Defined.

(** The state with totalUnits = 0 < currentUnit is one the tracker reaches:
    an advance with total 1, then a total of 0. *)
Example total_zero_reachable :
  exists file,
    run_ops None [Advance "bookA" 1; SetTotalUnits "bookA" 0] = Some file
    /\ get_book_progress file "bookA" = Some (mkBookProgress 1 0 1 true).
Proof. eexists. split; vm_compute; reflexivity. Qed.

(* ===================================================================== *)
(** * Further facts *)
(* ===================================================================== *)

#[local] Arguments isspace : simpl never.

Section TrackerMore.

Implicit Types (file : progress_file) (book : string) (p q : BookProgress).

Lemma well_formed_cases file :
  well_formed file
  <-> file = None \/ exists books, file = Some (mkProgressData (Some books)).
Proof.
  unfold well_formed. split.
  - intros [books H]. destruct file as [[b]|]; [|auto].
    simpl in H. subst b. eauto.
  - intros [->|[books ->]]; simpl; eauto.
Qed.

Lemma get_book_progress_is_Some file book :
  is_Some (get_book_progress file book) <-> well_formed file.
Proof.
  split; [|apply get_book_progress_returns].
  unfold get_book_progress, well_formed.
  destruct (pd_books (load_progress file)); [eauto|].
  intros [p H]. discriminate.
Qed.

Lemma progress_or_fresh_get file book p :
  get_book_progress file book = Some p -> progress_or_fresh file book = p.
Proof. unfold progress_or_fresh. intros ->. reflexivity. Qed.

(** Any property of a book's record that both writers keep holds after
    every run of calls, whatever the other books do. *)
Lemma run_ops_invariant (Inv : BookProgress -> Prop) book :
  (forall p n, Inv p -> Inv (mark_chunk_read (set_total_chunks p n))) ->
  (forall p n, Inv p -> Inv (set_total_chunks p n)) ->
  forall ops file p,
    well_formed file ->
    get_book_progress file book = Some p ->
    Inv p ->
    exists file' p',
      run_ops file ops = Some file'
      /\ well_formed file'
      /\ get_book_progress file' book = Some p'
      /\ Inv p'.
Proof.
  intros Hadv Hset. induction ops as [|o ops IH]; intros file p Hwf Hget Hinv.
  - exists file, p. simpl. auto.
  - destruct o as [b n|b n]; cbn [run_ops run_op].
    + destruct (get_book_progress_returns file b Hwf) as [pb Hpb].
      destruct (update_book_progress_spec file b n pb Hwf Hpb)
        as (f1 & -> & Hwf1 & Hget1 & Hother). simpl.
      destruct (decide (b = book)) as [->|Hne].
      * rewrite Hget in Hpb. injection Hpb as <-.
        apply (IH f1 _ Hwf1 Hget1). apply Hadv, Hinv.
      * apply (IH f1 p Hwf1); [|exact Hinv].
        rewrite Hother by auto. exact Hget.
    + destruct (get_book_progress_returns file b Hwf) as [pb Hpb].
      destruct (set_book_total_chunks_spec file b n pb Hwf Hpb)
        as (Hwf1 & Hget1 & Hother).
      destruct (decide (b = book)) as [->|Hne].
      * rewrite Hget in Hpb. injection Hpb as <-.
        apply (IH _ _ Hwf1 Hget1). apply Hset, Hinv.
      * apply (IH _ p Hwf1); [|exact Hinv].
        rewrite Hother by auto. exact Hget.
Qed.

Lemma count_book_comm a b acc :
  count_book a (count_book b acc) = count_book b (count_book a acc).
Proof.
  unfold count_book.
  destruct (default false (bd_completed a)), (default false (bd_completed b));
    simpl; f_equal; lia.
Qed.

Lemma count_book_days a acc :
  total_reading_days (count_book a acc)
  = total_reading_days acc + default 0 (bd_reading_days a).
Proof. unfold count_book. destruct (default false _); reflexivity. Qed.

Lemma count_book_books a acc :
  active_books (count_book a acc) + completed_books (count_book a acc)
  = active_books acc + completed_books acc + 1.
Proof. unfold count_book. destruct (default false _); simpl; lia. Qed.

Lemma statistics_of_insert (books : gmap string book_data) k v :
  statistics_of (<[k := v]> books)
  = count_book v (statistics_of (delete k books)).
Proof.
  unfold statistics_of. rewrite <- insert_delete_eq.
  apply map_fold_insert_L.
  - intros. apply count_book_comm.
  - apply lookup_delete_eq.
Qed.

Lemma statistics_of_lookup (books : gmap string book_data) k v :
  books !! k = Some v ->
  statistics_of books = count_book v (statistics_of (delete k books)).
Proof.
  intros H. rewrite <- (insert_id books k v H) at 1.
  apply statistics_of_insert.
Qed.

Lemma statistics_of_absent (books : gmap string book_data) k :
  books !! k = None -> statistics_of (delete k books) = statistics_of books.
Proof. intros H. rewrite delete_id by exact H. reflexivity. Qed.

End TrackerMore.

Section ChunkerMore.

Variable self : TextChunker.
Variable target : Z.

Lemma paragraphs_not_blank text : strip text <> [] -> paragraphs text <> [].
Proof.
  intros H E. pose proof (word_sum_paragraphs text) as Hw.
  rewrite E in Hw. simpl in Hw.
  pose proof (count_words_pos text H). lia.
Qed.

Lemma kept_paragraphs_cons p ps :
  kept_paragraphs (p :: ps)
  = if is_empty (strip p) then kept_paragraphs ps
    else strip p :: kept_paragraphs ps.
Proof.
  unfold kept_paragraphs. simpl. destruct (strip p); reflexivity.
Qed.

(** With a reading speed of zero the loop raises as soon as it has a unit
    to close. *)
Lemma chunk_loop_raises ps : forall chunks cur cnt,
  words_per_minute self = 0 ->
  cur ++ kept_paragraphs ps <> [] ->
  chunk_loop self target ps chunks cur cnt = None.
Proof.
  assert (Hc : forall i s, words_per_minute self = 0 ->
                           _create_chunk self i s = None).
  { intros i s H. unfold _create_chunk. rewrite H. reflexivity. }
  induction ps as [|p ps IH]; intros chunks cur cnt Hw Hne; simpl.
  - unfold kept_paragraphs in Hne. simpl in Hne. rewrite app_nil_r in Hne.
    destruct cur; [congruence|]. simpl. rewrite Hc by exact Hw. reflexivity.
  - rewrite kept_paragraphs_cons in Hne.
    destruct (is_empty (strip p)) eqn:Ep; [apply IH; assumption|].
    destruct (_ && _).
    + rewrite Hc by exact Hw. reflexivity.
    + apply IH; [exact Hw|]. destruct cur; discriminate.
Qed.

(** When everything that is left fits, the loop closes one unit with all
    of it. *)
Lemma chunk_loop_fits ps : forall chunks cur cnt,
  cnt = word_sum cur ->
  cnt + word_sum (kept_paragraphs ps) <= target ->
  cur ++ kept_paragraphs ps <> [] ->
  chunk_loop self target ps chunks cur cnt
  = match _create_chunk self (Z.of_nat (length chunks))
            (join NL2 (cur ++ kept_paragraphs ps)) with
    | None => None
    | Some c => Some (chunks ++ [c])
    end.
Proof.
  induction ps as [|p ps IH]; intros chunks cur cnt Hcnt Hfit Hne; simpl.
  - unfold kept_paragraphs in *. simpl in *. rewrite app_nil_r in *.
    destruct cur; [congruence|]. reflexivity.
  - rewrite kept_paragraphs_cons in *.
    destruct (is_empty (strip p)) eqn:Ep; [apply IH; assumption|].
    simpl in Hfit. pose proof (word_sum_nonneg (kept_paragraphs ps)) as Hpos.
    destruct (Z.ltb_spec target (cnt + count_words (strip p))); [lia|].
    simpl. rewrite IH.
    + rewrite <- app_assoc. reflexivity.
    + rewrite word_sum_app. simpl. lia.
    + lia.
    + destruct cur; discriminate.
Qed.

(** The groups behind the units, with the test that closed each of them:
    the first group begins with the buffer, and every group but the last
    was closed because the paragraph after it did not fit. *)
Lemma chunk_loop_greedy ps : forall chunks cur cnt res,
  cnt = word_sum cur ->
  chunk_loop self target ps chunks cur cnt = Some res ->
  exists gs new,
    res = chunks ++ new
    /\ Forall2 unit_of new gs
    /\ concat gs = cur ++ kept_paragraphs ps
    /\ closed_when_full target gs
    /\ match gs with
       | [] => cur = []
       | g :: _ => exists more, g = cur ++ more
       end.
Proof.
  induction ps as [|p ps IH]; intros chunks cur cnt res Hcnt; simpl.
  - destruct cur as [|q cur]; simpl.
    + intros [= <-]. exists [], []. rewrite app_nil_r.
      repeat split; constructor.
    + destruct (_create_chunk _ _ _) as [c|] eqn:Ec; [|discriminate].
      intros [= <-]. apply _create_chunk_spec in Ec as (Hi & Hc & Hwc).
      exists [q :: cur], [c]. split; [reflexivity|].
      split; [|split; [|split]].
      * constructor; [|constructor]. split; [exact Hc|].
        rewrite Hwc. apply count_words_join.
      * unfold kept_paragraphs. simpl. rewrite !app_nil_r. reflexivity.
      * exact I.
      * exists []. rewrite app_nil_r. reflexivity.
  - rewrite kept_paragraphs_cons.
    destruct (strip p) as [|a sp] eqn:Ep; simpl; [apply IH; assumption|].
    rewrite <- Ep.
    destruct ((target <? cnt + count_words (strip p))
              && negb (is_empty cur)) eqn:Econd.
    + apply andb_true_iff in Econd as [Hfull Hne].
      apply Z.ltb_lt in Hfull.
      destruct (_create_chunk _ _ _) as [c|] eqn:Ec; [|discriminate].
      apply _create_chunk_spec in Ec as (Hi & Hc & Hwc).
      intros Hrun.
      apply IH in Hrun as (gs & new & -> & Hunits & Hcat & Hfullgs & Hhd);
        [|simpl; lia].
      destruct gs as [|g gs]; [discriminate|].
      destruct Hhd as [more ->].
      exists (cur :: ([strip p] ++ more) :: gs), (c :: new).
      split; [rewrite <- app_assoc; reflexivity|].
      split; [|split; [|split]].
      * constructor; [|exact Hunits]. split; [exact Hc|].
        rewrite Hwc. apply count_words_join.
      * simpl. simpl in Hcat. rewrite Hcat. reflexivity.
      * split; [|exact Hfullgs].
        exists (strip p), more. split; [reflexivity|]. lia.
      * exists []. rewrite app_nil_r. reflexivity.
    + intros Hrun.
      apply IH in Hrun as (gs & new & -> & Hunits & Hcat & Hfullgs & Hhd);
        [|rewrite word_sum_app; simpl; lia].
      exists gs, new. split; [reflexivity|]. split; [exact Hunits|].
      split; [rewrite Hcat, <- app_assoc; reflexivity|].
      split; [exact Hfullgs|].
      destruct gs as [|g gs].
      * destruct cur; discriminate.
      * destruct Hhd as [more ->]. exists ([strip p] ++ more).
        rewrite <- app_assoc. reflexivity.
Qed.

End ChunkerMore.

Lemma groups_of_units (cs : list BookChunk) (gs : list (list str)) :
  Forall2 unit_of cs gs ->
  Forall paragraph_ok (concat gs) ->
  map (fun u => paragraphs (content u)) cs = gs.
Proof.
  induction 1 as [|u g cs gs [Hc _] _ IH]; [reflexivity|].
  simpl. intros Hok. apply Forall_app in Hok as [Hg Hrest].
  rewrite Hc, (paragraphs_join g Hg), (IH Hrest). reflexivity.
Qed.

Lemma closed_when_full_lookup target (cs : list BookChunk)
    (gs : list (list str)) :
  Forall2 unit_of cs gs ->
  closed_when_full target gs ->
  forall (i : nat) u v,
    cs !! i = Some u -> cs !! S i = Some v ->
    exists g p more,
      gs !! S i = Some (p :: more) /\ gs !! i = Some g
      /\ target < word_count u + count_words p.
Proof.
  induction 1 as [|u0 g0 cs gs Hu Hrest IH]; intros Hfull i u v Hi Hsi.
  - discriminate.
  - destruct Hrest as [|u1 g1 cs gs Hu1 Hrest]; [destruct i; discriminate|].
    destruct Hfull as [(p & more & -> & Hlt) Hfull].
    destruct i as [|i]; simpl in *.
    + injection Hi as <-. injection Hsi as <-.
      exists g0, p, more. destruct Hu as [_ ->]. auto.
    + destruct (IH Hfull i u v Hi Hsi) as (g & p' & more' & H1 & H2 & H3).
      exists g, p', more'. auto.
Qed.

Section WordsKept.

Implicit Types (s r t w line : str) (c d : char) (ls : list str).

Lemma split_ws_from_space w c s :
  isspace c = true ->
  split_ws_from w (c :: s) = flush_word w ++ split_ws_from [] s.
Proof. simpl. intros ->. destruct w; reflexivity. Qed.

Lemma split_ws_from_char w c s :
  isspace c = false ->
  split_ws_from w (c :: s) = split_ws_from (w ++ [c]) s.
Proof. simpl. intros ->. reflexivity. Qed.

Lemma split_ws_from_spaces w s r :
  all_space s -> s <> [] ->
  split_ws_from w (s ++ r) = flush_word w ++ split_ws_from [] r.
Proof.
  intros Hs Hne. destruct Hs as [|c s Hc Hs]; [congruence|].
  simpl app. rewrite split_ws_from_space by exact Hc.
  rewrite split_ws_space_l by exact Hs. reflexivity.
Qed.

(** Two texts with the same words after any word begun have the same
    words after any common prefix. *)
Lemma split_ws_from_prefix t1 t2 :
  (forall w, split_ws_from w t1 = split_ws_from w t2) ->
  forall s w, split_ws_from w (s ++ t1) = split_ws_from w (s ++ t2).
Proof.
  intros H. induction s as [|c s IH]; intros w; simpl; [apply H|].
  destruct (isspace c); [destruct (is_empty w)|]; rewrite IH; reflexivity.
Qed.

Lemma split_ws_strip s : split_ws (strip s) = split_ws s.
Proof.
  destruct (strip_decomp s) as (l & t & Hs & Hl & Ht).
  rewrite Hs at 2. unfold split_ws.
  rewrite split_ws_space_l by exact Hl.
  rewrite split_ws_from_space_r by exact Ht. reflexivity.
Qed.

Lemma split_ws_sub_blanks s :
  (forall w, split_ws_from w (sub_blanks false s) = split_ws_from w s)
  /\ split_ws_from [] (sub_blanks true s) = split_ws_from [] s.
Proof.
  induction s as [|c s [IHf IHt]]; [split; reflexivity|].
  simpl. destruct (is_blank c) eqn:Ec.
  - pose proof (is_blank_isspace c Ec) as Hc. rewrite Hc. split.
    + intros w. rewrite split_ws_from_space by reflexivity.
      rewrite IHt. destruct w; reflexivity.
    + exact IHt.
  - split.
    + intros w. simpl. destruct (isspace c); [destruct (is_empty w)|];
        rewrite IHf; reflexivity.
    + simpl. destruct (isspace c); rewrite IHf; reflexivity.
Qed.

Lemma split_ws_clean_line line : split_ws (clean_line line) = split_ws line.
Proof.
  unfold clean_line, split_ws.
  rewrite (proj1 (split_ws_sub_blanks (strip line))).
  apply split_ws_strip.
Qed.

Lemma split_ws_join_nl ls :
  split_ws (join [NL] ls) = concat (map split_ws ls).
Proof.
  induction ls as [|l ls IH]; [reflexivity|].
  destruct ls as [|l' ls].
  - simpl. rewrite app_nil_r. reflexivity.
  - rewrite join_cons. unfold split_ws in *. simpl app.
    rewrite split_ws_from_app_space by reflexivity.
    rewrite IH. reflexivity.
Qed.

Lemma split_ws_lines s : concat (map split_ws (split_nl s)) = split_ws s.
Proof. rewrite <- split_ws_join_nl, join_split_nl. reflexivity. Qed.

Lemma split_ws_sub_newlines s : forall k w,
  (k = 0%nat \/ w = []) ->
  split_ws_from w (sub_newlines k s) = split_ws_from w s.
Proof.
  induction s as [|c s IH]; intros k w Hk; [reflexivity|]. simpl.
  destruct (N.eqb_spec c NL) as [->|Hc].
  - change (isspace NL) with true. cbv iota.
    destruct (Nat.ltb_spec k 2).
    + rewrite split_ws_from_space by reflexivity.
      rewrite IH by auto. destruct w; reflexivity.
    + destruct Hk as [->| ->]; [lia|]. apply IH. auto.
  - simpl. destruct (isspace c); [destruct (is_empty w)|];
      rewrite IH by auto; reflexivity.
Qed.

Lemma split_ws_clean_lines s :
  split_ws (join [NL] (map clean_line (split_nl s))) = split_ws s.
Proof.
  rewrite split_ws_join_nl, <- split_ws_lines.
  f_equal. rewrite List.map_map. apply List.map_ext.
  intros l. apply split_ws_clean_line.
Qed.

End WordsKept.

Section NormalForm.

Implicit Types (s r t w line : str) (c d : char) (ls : list str).

Lemma has_pair_cons a b c d s :
  has_pair a b (c :: d :: s)
  = (c =? a)%N && (d =? b)%N || has_pair a b (d :: s).
Proof. reflexivity. Qed.

Lemma has_pair_false a b s :
  has_pair a b s = false -> forall l r, s <> l ++ a :: b :: r.
Proof.
  induction s as [|c s IH]; intros H l r E.
  - destruct l; discriminate.
  - destruct s as [|d s]; [destruct l as [|? [|? ?]]; discriminate|].
    rewrite has_pair_cons in H. apply orb_false_iff in H as [H1 H2].
    destruct l as [|c' l]; simpl in E.
    + injection E as -> -> _. rewrite !N.eqb_refl in H1. discriminate.
    + injection E as _ E. exact (IH H2 l r E).
Qed.

Lemma has_nl3_cons c d e s :
  has_nl3 (c :: d :: e :: s)
  = (c =? NL)%N && (d =? NL)%N && (e =? NL)%N || has_nl3 (d :: e :: s).
Proof. reflexivity. Qed.

Lemma has_nl3_false s :
  has_nl3 s = false -> forall l r, s <> l ++ NL :: NL :: NL :: r.
Proof.
  induction s as [|c s IH]; intros H l r E.
  - destruct l; discriminate.
  - destruct s as [|d [|e s]];
      [destruct l as [|? [|? ?]]; discriminate
      |destruct l as [|? [|? [|? ?]]]; discriminate|].
    rewrite has_nl3_cons in H. apply orb_false_iff in H as [H1 H2].
    destruct l as [|c' l]; simpl in E.
    + injection E as -> -> -> _. discriminate.
    + injection E as _ E. exact (IH H2 l r E).
Qed.

Lemma sub_blanks_no_tab b s : Forall (fun c => c <> TAB) (sub_blanks b s).
Proof.
  revert b. induction s as [|c s IH]; intros b; simpl; [constructor|].
  destruct (is_blank c) eqn:Ec; [destruct b|].
  - apply IH.
  - constructor; [discriminate|apply IH].
  - constructor; [|apply IH]. intros ->. discriminate.
Qed.

Lemma sub_blanks_no_pair s : forall b,
  has_pair SP SP (sub_blanks b s) = false
  /\ (b = true -> forall r, sub_blanks b s <> SP :: r).
Proof.
  induction s as [|c s IH]; intros b; [split; [reflexivity|discriminate]|].
  simpl. destruct (is_blank c) eqn:Ec.
  - destruct b; [apply IH|].
    destruct (IH true) as [H1 H2]. split; [|discriminate].
    destruct (sub_blanks true s) as [|d x] eqn:E; [reflexivity|].
    rewrite has_pair_cons, H1.
    destruct (N.eqb_spec d SP) as [->|]; [|rewrite andb_false_r; reflexivity].
    destruct (H2 eq_refl x). reflexivity.
  - assert (Hc : c <> SP) by (intros ->; discriminate).
    destruct (IH false) as [H1 _]. split.
    + destruct (sub_blanks false s) as [|d x] eqn:E; [reflexivity|].
      rewrite has_pair_cons, H1. apply N.eqb_neq in Hc. rewrite Hc.
      reflexivity.
    + intros _ r [= E _]. congruence.
Qed.

Lemma has_pair_app_nl s r :
  has_pair SP SP (s ++ NL :: r) = has_pair SP SP s || has_pair SP SP r.
Proof.
  induction s as [|c s IH].
  - simpl. destruct r; reflexivity.
  - destruct s as [|d s].
    + change ([c] ++ NL :: r) with (c :: NL :: r).
      rewrite has_pair_cons. change (NL =? SP)%N with false.
      rewrite andb_false_r. simpl orb. exact IH.
    + change ((c :: d :: s) ++ NL :: r) with (c :: d :: (s ++ NL :: r)).
      rewrite !has_pair_cons. change (d :: s ++ NL :: r)
        with ((d :: s) ++ NL :: r). rewrite IH, orb_assoc. reflexivity.
Qed.

Lemma lines_no_pair ls :
  Forall line_ok ls -> has_pair SP SP (join [NL] ls) = false.
Proof.
  assert (H1 : forall l, line_ok l -> has_pair SP SP l = false).
  { intros l (_ & _ & Hb). rewrite <- Hb. apply sub_blanks_no_pair. }
  induction 1 as [|l ls Hl Hls IH]; [reflexivity|].
  destruct ls as [|l' ls]; [apply H1, Hl|].
  rewrite join_cons. simpl app. rewrite has_pair_app_nl, IH, (H1 l Hl).
  reflexivity.
Qed.

Lemma lines_no_tab ls :
  Forall line_ok ls -> Forall (fun c => c <> TAB) (join [NL] ls).
Proof.
  assert (H1 : forall l, line_ok l -> Forall (fun c => c <> TAB) l).
  { intros l (_ & _ & Hb). rewrite <- Hb. apply sub_blanks_no_tab. }
  induction 1 as [|l ls Hl Hls IH]; [constructor|].
  destruct ls as [|l' ls]; [apply H1, Hl|].
  rewrite join_cons. apply Forall_app. split; [apply H1, Hl|].
  constructor; [discriminate|exact IH].
Qed.

Lemma sub_newlines_fixed_no_nl3 s : forall k,
  sub_newlines k s = s ->
  has_nl3 s = false
  /\ (forall r, s = NL :: r -> (k < 2)%nat)
  /\ (forall r, s = NL :: NL :: r -> k = 0%nat).
Proof.
  induction s as [|c s IH]; intros k H.
  - repeat split; discriminate.
  - simpl in H. destruct (N.eqb_spec c NL) as [->|Hc].
    + destruct (Nat.ltb_spec k 2) as [Hk|Hk].
      * injection H as H. destruct (IH (S k) H) as (H3 & H1 & H2).
        split; [|split].
        -- destruct s as [|d [|e s]]; try reflexivity.
           rewrite has_nl3_cons, H3, orb_false_r.
           destruct (N.eqb_spec d NL) as [->|]; [|reflexivity].
           destruct (N.eqb_spec e NL) as [->|]; [|reflexivity].
           specialize (H2 s eq_refl). discriminate.
        -- intros _ _. exact Hk.
        -- intros r [= E]. specialize (H1 r E). lia.
      * pose proof (sub_newlines_length (S k) s) as Hlen.
        rewrite H in Hlen. simpl in Hlen. lia.
    + injection H as H. destruct (IH 0%nat H) as (H3 & _ & _).
      split; [|split].
      * destruct s as [|d [|e s]]; try reflexivity.
        rewrite has_nl3_cons, H3. apply N.eqb_neq in Hc. rewrite Hc.
        reflexivity.
      * intros r [= E _]. congruence.
      * intros r [= E _]. congruence.
Qed.

End NormalForm.

(** A text made of lines in normal form, without three newlines in a row
    and without white space at its ends, is left alone by [clean_text]. *)
Lemma clean_text_fixed (y : str) (ls : list str) :
  ls <> [] -> Forall line_ok ls -> y = join [NL] ls ->
  sub_newlines 0 y = y -> strip y = y ->
  clean_text y = y.
Proof.
  intros Hne Hok E Hnl Hstrip.
  unfold clean_text. destruct y as [|c y]; [reflexivity|]. cbn [is_empty].
  rewrite sub_class_double, sub_class_single, E.
  rewrite split_nl_join by (auto using lines_ok_nl_free).
  rewrite clean_lines_fixed by exact Hok.
  rewrite <- E, Hnl. exact Hstrip.
Qed.

Section Sentences.

Implicit Types (s r t w ws : str) (c d : char).

Lemma is_upper_not_space c : is_upper c = true -> isspace c = false.
Proof.
  unfold is_upper. intros H. apply andb_true_iff in H as [H1 H2].
  apply N.leb_le in H1, H2. unfold isspace.
  repeat match goal with
         | |- context [(?a <=? ?b)%N] => destruct (N.leb_spec a b)
         | |- context [(?a =? ?b)%N] => destruct (N.eqb_spec a b)
         end; simpl; try reflexivity; lia.
Qed.

(** The sentence breaks change white space only: the text with breaks has
    the words of the text, after any word begun, once the white space held
    back is put back in front. *)
Lemma split_ws_sub_sentence_breaks s : forall pending w,
  all_space (default [] pending) ->
  split_ws_from w (sub_sentence_breaks pending s)
  = split_ws_from w (default [] pending ++ s).
Proof.
  induction s as [|c s IH]; intros pending w Hp.
  - simpl. rewrite app_nil_r. reflexivity.
  - cbn [sub_sentence_breaks].
    set (next := if is_terminator c then Some [] else None).
    assert (Hnext : forall w', split_ws_from w' (sub_sentence_breaks next s)
                               = split_ws_from w' s).
    { intros w'. rewrite IH; [|destruct (is_terminator c); constructor].
      unfold next. destruct (is_terminator c); reflexivity. }
    destruct pending as [ws|]; simpl default in *.
    + destruct (isspace c) eqn:Ec.
      * rewrite IH; simpl default.
        -- rewrite <- app_assoc. reflexivity.
        -- apply Forall_app. split; [exact Hp|]. repeat constructor. exact Ec.
      * destruct (negb (is_empty ws) && is_upper c) eqn:Em.
        -- apply andb_true_iff in Em as [Hne Hup].
           rewrite split_ws_from_space by reflexivity.
           rewrite split_ws_from_spaces;
             [|exact Hp|destruct ws; [discriminate|discriminate]].
           f_equal. rewrite !(split_ws_from_char _ c _ Ec).
           apply (IH None). constructor.
        -- apply split_ws_from_prefix. intros w'.
           rewrite !(split_ws_from_char _ c _ Ec). apply Hnext.
    + simpl. destruct (isspace c); [destruct (is_empty w)|];
        rewrite Hnext; reflexivity.
Qed.

Lemma concat_split_ws_kept (ls : list str) :
  concat (map split_ws
            (List.filter (fun s => negb (is_empty s)) (map strip ls)))
  = concat (map split_ws ls).
Proof.
  induction ls as [|l ls IH]; [reflexivity|]. simpl.
  rewrite <- (split_ws_strip l).
  destruct (strip l) eqn:E; simpl; rewrite IH; reflexivity.
Qed.

End Sentences.

Section Reading.

Variable data : chunk_data.
Variable enable_email : bool.

Implicit Types (file : progress_file) (book : string) (p : BookProgress).

Lemma py_index_in_range {A} (l : list A) (i : Z) :
  0 <= i < Z.of_nat (length l) ->
  py_index l i = nth_error l (Z.to_nat i)
  /\ is_Some (nth_error l (Z.to_nat i)).
Proof.
  intros H. unfold py_index.
  destruct (Z.leb_spec 0 i); [|lia].
  destruct (Z.ltb_spec i (Z.of_nat (length l))); [|lia].
  split; [reflexivity|].
  destruct (nth_error l (Z.to_nat i)) eqn:E; [eauto|].
  apply nth_error_None in E. lia.
Qed.

Lemma skipn_nth_error {A} (l : list A) (n : nat) x :
  nth_error l n = Some x -> skipn n l = x :: skipn (S n) l.
Proof.
  revert l. induction n as [|n IH]; intros [|y l]; simpl; try discriminate.
  - intros [= ->]. reflexivity.
  - intros H. rewrite (IH l H). destruct l; reflexivity.
Qed.

(** One run with [--send] on a book that is not through. *)
Lemma read_daily_send file book p :
  well_formed file ->
  get_book_progress file book = Some p ->
  0 <= current_chunk p < Z.of_nat (length (chunks data)) ->
  exists chunk pct file',
    read_daily data enable_email file book true
    = Some (DailyReading chunk (reading_days p + 1) (current_chunk p + 1) pct
              (Z.of_nat (length (chunks data)) <=? current_chunk p + 1)
              (if enable_email then
                 Some (chunk, mkEmailProgress (reading_days p + 1)
                                (current_chunk p + 1)
                                (Z.of_nat (length (chunks data))))
               else None),
            file')
    /\ nth_error (chunks data) (Z.to_nat (current_chunk p)) = Some chunk
    /\ well_formed file'
    /\ get_book_progress file' book
       = Some (mkBookProgress (current_chunk p + 1)
                 (Z.of_nat (length (chunks data))) (reading_days p + 1)
                 (if Z.of_nat (length (chunks data)) <=? current_chunk p + 1
                  then true else completed p)).
Proof.
  intros Hwf Hget Hrange. unfold read_daily. rewrite Hget.
  destruct (Z.leb_spec (Z.of_nat (length (chunks data))) (current_chunk p));
    [lia|].
  destruct (py_index_in_range (chunks data) (current_chunk p) Hrange)
    as [-> [chunk Hchunk]].
  rewrite Hchunk.
  destruct (update_book_progress_spec file book
              (Z.of_nat (length (chunks data))) p Hwf Hget)
    as (file' & -> & Hwf' & Hget' & _).
  eexists chunk, _, file'. split; [reflexivity|].
  split; [reflexivity|]. split; [exact Hwf'|].
  rewrite Hget'. unfold mark_chunk_read. simpl.
  destruct (Z.ltb_spec (current_chunk p) (Z.of_nat (length (chunks data))));
    [reflexivity|lia].
Qed.

End Reading.

(** A run of reads with [--send], from any book that has enough chunks
    left. *)
Lemma read_daily_runs_spec (data : chunk_data) (enable_email : bool)
    (book : string) (k : nat) (file : progress_file) (p : BookProgress) :
  well_formed file ->
  get_book_progress file book = Some p ->
  0 <= current_chunk p ->
  current_chunk p + Z.of_nat k <= Z.of_nat (length (chunks data)) ->
  exists shown file' p',
    read_daily_runs data enable_email file book k = Some (shown, file')
    /\ map shown_chunk shown
       = map Some (firstn k (skipn (Z.to_nat (current_chunk p)) (chunks data)))
    /\ (forall (j : nat) o, shown !! j = Some o ->
          exists chunk pct email,
            o = DailyReading chunk (reading_days p + Z.of_nat j + 1)
                  (current_chunk p + Z.of_nat j + 1) pct
                  (Z.of_nat (length (chunks data))
                   <=? current_chunk p + Z.of_nat j + 1) email)
    /\ get_book_progress file' book = Some p'
    /\ current_chunk p' = current_chunk p + Z.of_nat k
    /\ reading_days p' = reading_days p + Z.of_nat k.
Proof.
  revert file p.
  induction k as [|k IH]; intros file p Hwf Hget Hc Hk.
  - exists [], file, p. simpl. repeat split; auto; try lia.
    intros j o H. destruct j; discriminate.
  - destruct (read_daily_send data enable_email file book p Hwf Hget
                ltac:(lia))
      as (chunk & pct & file1 & Hrun & Hchunk & Hwf1 & Hget1).
    destruct (IH file1 _ Hwf1 Hget1 ltac:(simpl; lia) ltac:(simpl; lia))
      as (shown & file' & p' & Hruns & Hshown & Hall & Hget' & Hc' & Hd').
    simpl in Hshown, Hall, Hc', Hd'.
    eexists (_ :: shown), file', p'.
    cbn [read_daily_runs]. rewrite Hrun, Hruns.
    split; [reflexivity|]. split; [|split; [|split; [|split]]].
    + cbn [map shown_chunk]. rewrite Hshown.
      rewrite (skipn_nth_error _ _ _ Hchunk). cbn [firstn map].
      do 3 f_equal. rewrite Z2Nat.inj_add by lia. simpl.
      rewrite Nat.add_1_r. reflexivity.
    + intros [|j] o Ho; simpl in Ho.
      * injection Ho as <-. eexists chunk, pct, _.
        rewrite !Z.add_0_r. reflexivity.
      * destruct (Hall j o Ho) as (chunk' & pct' & email' & ->).
        exists chunk', pct', email'. f_equal; try lia.
        f_equal. lia.
    + exact Hget'.
    + lia.
    + lia.
Qed.

Section Processing.

Lemma units_word_sum (cs : list BookChunk) (gs : list (list str)) :
  Forall2 unit_of cs gs -> sum_Z (map word_count cs) = word_sum (concat gs).
Proof.
  induction 1 as [|u g cs gs [_ Hwc] _ IH]; [reflexivity|].
  simpl. rewrite word_sum_app, Hwc, IH. reflexivity.
Qed.

Lemma chunk_to_dict_fields (cs : list BookChunk) :
  length (chunk_to_dict cs) = length cs
  /\ map cd_index (chunk_to_dict cs) = map index cs
  /\ map cd_word_count (chunk_to_dict cs) = map word_count cs
  /\ map cd_content (chunk_to_dict cs) = map content cs.
Proof.
  unfold chunk_to_dict. rewrite length_map, !List.map_map. auto.
Qed.

Lemma count_words_clean_text text :
  count_words (clean_text text) = count_words text.
Proof.
  rewrite !count_words_length. f_equal. f_equal.
  unfold clean_text. destruct text as [|c text]; [reflexivity|].
  cbn [is_empty]. rewrite sub_class_double, sub_class_single.
  rewrite split_ws_strip. unfold split_ws at 1.
  rewrite split_ws_sub_newlines by auto.
  apply split_ws_clean_lines.
Qed.

Lemma set_book_total_chunks_any (file : progress_file) (book : string)
    (n : Z) :
  well_formed (set_book_total_chunks file book n)
  /\ get_book_progress (set_book_total_chunks file book n) book
     = Some (set_total_chunks (progress_or_fresh file book) n).
Proof.
  destruct (pd_books (load_progress file)) as [books|] eqn:Hb.
  - assert (Hwf : well_formed file) by (unfold well_formed; rewrite Hb; eauto).
    destruct (get_book_progress_returns file book Hwf) as [p Hp].
    destruct (set_book_total_chunks_spec file book n p Hwf Hp)
      as (Hwf' & Hget & _).
    rewrite (progress_or_fresh_get file book p Hp). auto.
  - split; [unfold well_formed; simpl; eauto|].
    unfold progress_or_fresh, get_book_progress, set_book_total_chunks,
      ensure_book. rewrite Hb. simpl.
    rewrite lookup_empty. simpl. rewrite !lookup_insert_eq. reflexivity.
Qed.

(** What [process_book] writes. *)
Lemma process_book_spec (chunker : TextChunker) (stem name : string)
    (content : str) (file : progress_file) (data : chunk_data)
    (file' : progress_file) :
  process_book chunker stem name content file = Some (data, file') ->
  total_words data = count_words content
  /\ total_words data = sum_Z (map cd_word_count (chunks data))
  /\ total_chunks_saved data = Z.of_nat (length (chunks data))
  /\ map cd_index (chunks data)
     = map Z.of_nat (seq 0 (length (chunks data)))
  /\ well_formed file'
  /\ get_book_progress file' name
     = Some (set_total_chunks (progress_or_fresh file name)
               (Z.of_nat (length (chunks data)))).
Proof.
  unfold process_book.
  destruct (chunk_text chunker (clean_text content)) as [cs|] eqn:Hrun;
    [|discriminate].
  intros [= <- <-]. simpl.
  destruct (chunk_text_spec chunker _ cs Hrun)
    as (gs & Hunits & Hidx & Hcat & _).
  destruct (chunk_to_dict_fields cs) as (Hlen & Hi & Hw & _).
  rewrite Hlen, Hi, Hw.
  split; [apply count_words_clean_text|].
  split; [rewrite (units_word_sum cs gs Hunits), Hcat;
          symmetry; apply word_sum_paragraphs|].
  split; [reflexivity|]. split; [exact Hidx|].
  apply set_book_total_chunks_any.
Qed.

End Processing.

(* ===================================================================== *)
(** * Further properties *)
(* ===================================================================== *)

(** ** The progress tracker *)

(** X1. What [update_book_progress] returns is what it stored: on a
    well-formed file the call returns, the file it leaves is well formed,
    [get_book_progress] on that file gives the returned snapshot back, and
    every other book reads as before. *)
Theorem update_book_progress_persists (file : progress_file) (book : string)
    (n : Z) :
  well_formed file ->
  exists snapshot file',
    update_book_progress file book n = Some (snapshot, file')
    /\ snapshot
       = mark_chunk_read (set_total_chunks (progress_or_fresh file book) n)
    /\ well_formed file'
    /\ get_book_progress file' book = Some snapshot
    /\ forall other, other <> book ->
         get_book_progress file' other = get_book_progress file other.
Proof.
  intros Hwf.
  destruct (get_book_progress_returns file book Hwf) as [p Hp].
  destruct (update_book_progress_spec file book n p Hwf Hp)
    as (file' & Hrun & Hwf' & Hget & Hother).
  rewrite (progress_or_fresh_get file book p Hp).
  exists (mark_chunk_read (set_total_chunks p n)), file'. auto.
Qed.

Lemma update_book_progress_persists_witness :
  exists snapshot file',
    update_book_progress None "bookA" 3 = Some (snapshot, file')
    /\ snapshot
       = mark_chunk_read (set_total_chunks (progress_or_fresh None "bookA") 3)
    /\ well_formed file'
    /\ get_book_progress file' "bookA" = Some snapshot
    /\ forall other, other <> "bookA"%string ->
         get_book_progress file' other = get_book_progress None other.
Proof.
  apply (update_book_progress_persists None "bookA" 3).
  unfold well_formed; simpl; eauto.
Defined.

(** X2. [set_book_total_chunks] never raises and always leaves a
    well-formed file, also when the file it found had no ["books"] key.  It
    changes the total of the named book and nothing else: the book then
    reads as before with the new total, every other book reads as before
    (as the fresh record when the file could not be read). *)
Theorem set_book_total_chunks_only_total (file : progress_file)
    (book : string) (n : Z) :
  well_formed (set_book_total_chunks file book n)
  /\ get_book_progress (set_book_total_chunks file book n) book
     = Some (set_total_chunks (progress_or_fresh file book) n)
  /\ forall other, other <> book ->
       get_book_progress (set_book_total_chunks file book n) other
       = Some (progress_or_fresh file other).
Proof.
  destruct (pd_books (load_progress file)) as [books|] eqn:Hb.
  - assert (Hwf : well_formed file) by (unfold well_formed; rewrite Hb; eauto).
    destruct (get_book_progress_returns file book Hwf) as [p Hp].
    destruct (set_book_total_chunks_spec file book n p Hwf Hp)
      as (Hwf' & Hget & Hother).
    rewrite (progress_or_fresh_get file book p Hp).
    split; [exact Hwf'|]. split; [exact Hget|].
    intros other Hne. rewrite (Hother other Hne).
    destruct (get_book_progress_returns file other Hwf) as [po Hpo].
    rewrite (progress_or_fresh_get file other po Hpo). exact Hpo.
  - split; [unfold well_formed; simpl; eauto|].
    unfold progress_or_fresh, get_book_progress, set_book_total_chunks,
      ensure_book. rewrite Hb. simpl.
    rewrite lookup_empty. simpl. rewrite !lookup_insert_eq. simpl.
    split; [reflexivity|].
    intros other Hne. rewrite !lookup_insert_ne by done.
    rewrite lookup_empty. reflexivity.
Qed.

(** X3. [get_book_progress] and [update_book_progress] raise (KeyError)
    exactly on a progress file that exists and has no ["books"] key; a
    missing file is read as an empty one. *)
Theorem progress_key_error (file : progress_file) (book : string) (n : Z) :
  (get_book_progress file book = None
   <-> exists d, file = Some d /\ pd_books d = None)
  /\ (update_book_progress file book n = None
      <-> exists d, file = Some d /\ pd_books d = None).
Proof.
  assert (H : get_book_progress file book = None
              <-> exists d, file = Some d /\ pd_books d = None).
  { unfold get_book_progress. destruct file as [d|]; simpl.
    - destruct (pd_books d) eqn:E; split; try discriminate; eauto.
      intros (d' & [= <-] & E'). congruence.
    - split; [discriminate|]. intros (d & H & _). discriminate. }
  split; [exact H|]. rewrite <- H.
  unfold update_book_progress.
  destruct (get_book_progress file book); split; congruence.
Qed.

(** X4. Reading days count the units read: in every state reached from the
    fresh record by any calls of the two writers, with any totals and with
    calls on other books in between, readingDays equals currentUnit and
    neither is negative. *)
Theorem reading_days_count_units (book : string) (ops : list tracker_op)
    (file : progress_file) :
  well_formed file ->
  get_book_progress file book = Some fresh_progress ->
  exists file' p,
    run_ops file ops = Some file'
    /\ get_book_progress file' book = Some p
    /\ reading_days p = current_chunk p
    /\ 0 <= current_chunk p.
Proof.
  intros Hwf Hget.
  destruct (run_ops_invariant
              (fun p => reading_days p = current_chunk p
                        /\ 0 <= current_chunk p) book)
    with (ops := ops) (file := file) (p := fresh_progress)
    as (file' & p & Hrun & _ & Hget' & Hinv); auto.
  - intros p n [Hd Hc]. unfold mark_chunk_read; simpl.
    destruct (_ <? _); simpl; lia.
  - simpl. lia.
  - exists file', p. tauto.
Qed.

Lemma reading_days_count_units_witness :
  exists file' p,
    run_ops None [Advance "bookA" 2; SetTotalUnits "bookA" 5;
                  Advance "bookB" 1; Advance "bookA" 5] = Some file'
    /\ get_book_progress file' "bookA" = Some p
    /\ reading_days p = current_chunk p
    /\ 0 <= current_chunk p.
Proof.
  apply (reading_days_count_units "bookA").
  - unfold well_formed; simpl; eauto.
  - reflexivity.
Defined.

(** X5. Nothing regresses: whatever calls of the two writers follow, with
    any totals, a book's currentUnit and readingDays never decrease and a
    completed flag that is set stays set. *)
Theorem progress_never_regresses (book : string) (ops : list tracker_op)
    (file : progress_file) (p0 : BookProgress) :
  well_formed file ->
  get_book_progress file book = Some p0 ->
  exists file' p,
    run_ops file ops = Some file'
    /\ get_book_progress file' book = Some p
    /\ current_chunk p0 <= current_chunk p
    /\ reading_days p0 <= reading_days p
    /\ (completed p0 = true -> completed p = true).
Proof.
  intros Hwf Hget.
  destruct (run_ops_invariant
              (fun p => current_chunk p0 <= current_chunk p
                        /\ reading_days p0 <= reading_days p
                        /\ (completed p0 = true -> completed p = true)) book)
    with (ops := ops) (file := file) (p := p0)
    as (file' & p & Hrun & _ & Hget' & Hinv); auto.
  - intros p n (Hc & Hd & Hf). unfold mark_chunk_read; simpl.
    destruct (_ <? _); simpl; [|auto].
    repeat split; try lia. destruct (_ <=? _); auto.
  - repeat split; auto; lia.
  - exists file', p. tauto.
Qed.

Lemma progress_never_regresses_witness :
  exists file' p,
    run_ops None [Advance "bookA" 1; SetTotalUnits "bookA" 3;
                  Advance "bookA" 3] = Some file'
    /\ get_book_progress file' "bookA" = Some p
    /\ current_chunk fresh_progress <= current_chunk p
    /\ reading_days fresh_progress <= reading_days p
    /\ (completed fresh_progress = true -> completed p = true).
Proof.
  apply (progress_never_regresses "bookA").
  - unfold well_formed; simpl; eauto.
  - reflexivity.
Defined.

(** X6. [mark_chunk_read] does nothing exactly when currentUnit >=
    totalUnits, and then [is_finished] holds; on a book that [is_finished]
    does not report finished it moves currentUnit and readingDays by one
    each, and the book is finished afterwards exactly when that unit was
    the last. *)
Theorem mark_chunk_read_is_finished (p : BookProgress) :
  (mark_chunk_read p = p <-> total_chunks p <= current_chunk p)
  /\ (mark_chunk_read p = p -> is_finished p = true)
  /\ (is_finished p = false ->
      current_chunk (mark_chunk_read p) = current_chunk p + 1
      /\ reading_days (mark_chunk_read p) = reading_days p + 1
      /\ (is_finished (mark_chunk_read p) = true
          <-> total_chunks p = current_chunk p + 1)).
Proof.
  assert (H : mark_chunk_read p = p <-> total_chunks p <= current_chunk p).
  { unfold mark_chunk_read.
    destruct (Z.ltb_spec (current_chunk p) (total_chunks p)).
    - split; [|lia]. intros E. apply (f_equal current_chunk) in E.
      simpl in E. lia.
    - split; [lia|reflexivity]. }
  split; [exact H|]. split.
  - intros E. apply H in E. unfold is_finished.
    apply Z.leb_le in E. rewrite E. apply orb_true_r.
  - unfold is_finished, mark_chunk_read. intros Hf.
    apply orb_false_iff in Hf as [Hc Hlt]. apply Z.leb_gt in Hlt.
    destruct (Z.ltb_spec (current_chunk p) (total_chunks p)); [|lia].
    simpl. rewrite Hc. split; [reflexivity|]. split; [reflexivity|].
    destruct (Z.leb_spec (total_chunks p) (current_chunk p + 1)); simpl;
      split; intros; try lia; try discriminate; reflexivity.
Qed.

Lemma mark_chunk_read_is_finished_witness :
  (mark_chunk_read (mkBookProgress 1 2 1 false) = mkBookProgress 1 2 1 false
   <-> 2 <= 1)
  /\ (mark_chunk_read (mkBookProgress 1 2 1 false) = mkBookProgress 1 2 1 false
      -> is_finished (mkBookProgress 1 2 1 false) = true)
  /\ (is_finished (mkBookProgress 1 2 1 false) = false ->
      current_chunk (mark_chunk_read (mkBookProgress 1 2 1 false)) = 1 + 1
      /\ reading_days (mark_chunk_read (mkBookProgress 1 2 1 false)) = 1 + 1
      /\ (is_finished (mark_chunk_read (mkBookProgress 1 2 1 false)) = true
          <-> 2 = 1 + 1)).
Proof. exact (mark_chunk_read_is_finished (mkBookProgress 1 2 1 false)). Defined.

(** X7. The statistics count every tracked book once, as completed or as
    active: activeBooks + completedBooks is the number of books in the
    file (none when the file or its ["books"] key is missing), and no
    count is negative. *)
Theorem statistics_count_books (file : progress_file) :
  active_books (get_reading_statistics file)
  + completed_books (get_reading_statistics file)
  = Z.of_nat (size (default ∅ (pd_books (load_progress file))))
  /\ 0 <= active_books (get_reading_statistics file)
  /\ 0 <= completed_books (get_reading_statistics file).
Proof.
  unfold get_reading_statistics.
  apply (map_fold_weak_ind
           (fun r (m : gmap string book_data) =>
              active_books r + completed_books r = Z.of_nat (size m)
              /\ 0 <= active_books r /\ 0 <= completed_books r)).
  - rewrite map_size_empty. simpl. lia.
  - intros k v m r Hk (IH & Ha & Hc).
    rewrite map_size_insert_None by exact Hk.
    rewrite count_book_books. unfold count_book.
    destruct (default false _); simpl; lia.
Qed.

(** X8. An advance shows in the statistics as the days it added: after
    [update_book_progress] the total of reading days has grown by the
    difference between the book's reading days after and before the call,
    which is one when the book moved and zero when it did not. *)
Theorem statistics_after_advance (file : progress_file) (book : string)
    (n : Z) (p q : BookProgress) (file' : progress_file) :
  get_book_progress file book = Some p ->
  update_book_progress file book n = Some (q, file') ->
  total_reading_days (get_reading_statistics file')
  = total_reading_days (get_reading_statistics file)
    + (reading_days q - reading_days p)
  /\ reading_days q - reading_days p
     = (if current_chunk p <? n then 1 else 0).
Proof.
  intros Hget Hrun.
  assert (Hq : q = mark_chunk_read (set_total_chunks p n)).
  { unfold update_book_progress in Hrun. rewrite Hget in Hrun.
    injection Hrun as <- _. reflexivity. }
  split.
  - unfold update_book_progress in Hrun. rewrite Hget in Hrun.
    injection Hrun as _ <-.
    revert Hget. unfold get_book_progress, get_reading_statistics, ensure_book.
    destruct (pd_books (load_progress file)) as [books|]; [|discriminate].
    simpl. intros [= Hp]. rewrite <- Hq.
    rewrite statistics_of_insert, count_book_days. simpl.
    destruct (books !! book) as [entry|] eqn:E; simpl in Hp.
    + rewrite (statistics_of_lookup books book entry E), count_book_days.
      subst p. simpl. lia.
    + rewrite delete_insert_eq, (statistics_of_absent books book E).
      subst p. simpl. lia.
  - subst q. unfold mark_chunk_read. simpl.
    destruct (current_chunk p <? n); simpl; lia.
Qed.

Lemma statistics_after_advance_witness :
  exists q file',
    update_book_progress None "bookA" 3 = Some (q, file')
    /\ total_reading_days (get_reading_statistics file')
       = total_reading_days (get_reading_statistics None)
         + (reading_days q - reading_days fresh_progress)
    /\ reading_days q - reading_days fresh_progress
       = (if current_chunk fresh_progress <? 3 then 1 else 0).
Proof.
  destruct (update_book_progress None "bookA" 3) as [[q file']|] eqn:E;
    [|discriminate].
  exists q, file'. split; [reflexivity|].
  apply (statistics_after_advance None "bookA" 3 fresh_progress q file').
  - reflexivity.
  - exact E.
Defined.

(** ** The chunker *)

(** X9. [chunk_text] raises exactly when the text is not blank and either
    the word budget cannot be computed or the reading speed is zero, and
    returns no unit exactly when the text is blank, whatever the settings.
    The budget cannot be computed exactly when the reading time is a
    float and the speed is too large for a double or their product is
    infinite or NaN. *)
Theorem chunk_text_outcome (self : TextChunker) (text : str) :
  (chunk_text self text = None
   <-> strip text <> []
       /\ (target_words self = None \/ words_per_minute self = 0))
  /\ (chunk_text self text = Some [] <-> strip text = [])
  /\ (target_words self = None
      <-> exists x,
            target_reading_time self = PyFloat x
            /\ match int_to_float (words_per_minute self) with
               | None => True
               | Some y =>
                   not_finite (SFmul float_prec float_emax x y) = true
               end).
Proof.
  split; [|split].
  - unfold chunk_text.
    destruct (strip text) as [|c r] eqn:Es; cbn [is_empty].
    { split; [discriminate|]. intros [H _]. congruence. }
    assert (Hne : strip text <> []) by (rewrite Es; discriminate).
    pose proof (paragraphs_not_blank text Hne) as Hps.
    destruct (target_words self) as [tw|] eqn:Etw.
    + split.
      * intros Hrun. split; [discriminate|]. right.
        destruct (Z.eq_dec (words_per_minute self) 0) as [|Hw]; [assumption|].
        destruct (chunk_loop_returns self tw (split_nl2 text) [] [] 0 Hw)
          as [cs Hcs]. congruence.
      * intros [_ [H|Hw]]; [discriminate|].
        apply chunk_loop_raises; [exact Hw|exact Hps].
    + split; [intros _; split; [discriminate|auto]|reflexivity].
  - unfold chunk_text.
    destruct (strip text) as [|c r] eqn:Es; cbn [is_empty].
    { split; reflexivity. }
    assert (Hne : strip text <> []) by (rewrite Es; discriminate).
    pose proof (paragraphs_not_blank text Hne) as Hps.
    split; [|discriminate].
    destruct (target_words self) as [tw|]; [|discriminate].
    intros Hrun. exfalso.
    apply chunk_loop_spec in Hrun
      as (gs & new & E & Hunits & _ & Hcat & _);
      [|reflexivity|left; simpl; lia].
    simpl in E. subst new. inversion Hunits; subst.
    simpl in Hcat. apply Hps. rewrite <- kept_paragraphs_split. auto.
  - unfold target_words, py_mul.
    destruct (target_reading_time self) as [n|x].
    { split; [discriminate|]. intros (x & H & _). discriminate. }
    destruct (int_to_float (words_per_minute self)) as [y|].
    + split.
      * intros H. exists x. split; [reflexivity|].
        destruct (SFmul float_prec float_emax x y); simpl in *;
          congruence.
      * intros (x' & [= <-] & H).
        destruct (SFmul float_prec float_emax x y); simpl in *;
          congruence.
    + split; [|reflexivity]. intros _. exists x. auto.
Qed.

(** X10. A text that fits the budget is one unit: when the text is not
    blank, the reading speed is not zero and the text has at most
    [target_words] words, [chunk_text] returns a single unit, numbered 0,
    whose content is all the paragraphs joined by the separator and whose
    word count is that of the text. *)
Theorem chunk_text_single_unit (self : TextChunker) (text : str) (tw : Z) :
  words_per_minute self <> 0 ->
  strip text <> [] ->
  target_words self = Some tw ->
  count_words text <= tw ->
  exists u,
    chunk_text self text = Some [u]
    /\ index u = 0
    /\ content u = join NL2 (paragraphs text)
    /\ word_count u = count_words text.
Proof.
  intros Hw Hne Htw Hfit. unfold chunk_text. rewrite Htw.
  destruct (strip text) eqn:Es; [congruence|]. cbn [is_empty].
  rewrite <- Es in *. clear Es.
  rewrite (chunk_loop_fits self tw); cbn [app length];
    [| reflexivity
     | rewrite kept_paragraphs_split, word_sum_paragraphs; simpl; lia
     | rewrite kept_paragraphs_split; apply paragraphs_not_blank, Hne].
  destruct (_create_chunk_returns self (Z.of_nat 0)
              (join NL2 (kept_paragraphs (split_nl2 text))) Hw) as [u Hu].
  rewrite Hu. apply _create_chunk_spec in Hu as (Hi & Hc & Hwc).
  exists u. rewrite kept_paragraphs_split in *.
  repeat split; auto.
  rewrite Hwc, count_words_join. apply word_sum_paragraphs.
Qed.

Lemma chunk_text_single_unit_witness :
  let chunker := mkTextChunker (PyFloat double_0_7) 10 in
  let text := lit "a b c" ++ NL2 ++ lit "d e f g" in
  target_words chunker = Some 7
  /\ count_words text = 7
  /\ exists u,
       chunk_text chunker text = Some [u]
       /\ index u = 0
       /\ content u = join NL2 (paragraphs text)
       /\ word_count u = count_words text.
Proof.
  intros chunker text.
  split; [vm_compute; reflexivity|]. split; [reflexivity|].
  apply (chunk_text_single_unit chunker text 7).
  - discriminate.
  - discriminate.
  - vm_compute; reflexivity.
  - vm_compute. discriminate.
Defined.

(** X11. The chunker is greedy: a unit is closed only because the next
    paragraph did not fit.  For two consecutive units, the word count of
    the first plus that of the first paragraph of the second exceeds the
    [target_words] the code computed. *)
Theorem chunk_text_greedy (self : TextChunker) (text : str)
    (cs : list BookChunk) (i : nat) (u v : BookChunk) :
  chunk_text self text = Some cs ->
  cs !! i = Some u ->
  cs !! S i = Some v ->
  exists tw p more,
    target_words self = Some tw
    /\ paragraphs (content v) = p :: more
    /\ tw < word_count u + count_words p.
Proof.
  unfold chunk_text. destruct (is_empty (strip text)).
  { intros [= <-]. discriminate. }
  destruct (target_words self) as [tw|]; [|discriminate].
  intros Hrun Hi Hsi.
  apply chunk_loop_greedy in Hrun
    as (gs & new & E & Hunits & Hcat & Hfull & _); [|reflexivity].
  simpl in E, Hcat. subst new.
  destruct (closed_when_full_lookup _ cs gs Hunits Hfull i u v Hi Hsi)
    as (g & p & more & Hg' & _ & Hlt).
  exists tw, p, more. split; [reflexivity|]. split; [|exact Hlt].
  assert (Hmap : map (fun u => paragraphs (content u)) cs = gs).
  { apply groups_of_units; [exact Hunits|].
    rewrite Hcat, kept_paragraphs_split. apply paragraphs_ok. }
  rewrite <- Hmap, list_lookup_fmap, Hsi in Hg'. simpl in Hg'.
  injection Hg' as Hg'. exact Hg'.
Qed.

Lemma chunk_text_greedy_witness :
  exists cs u v tw p more,
    chunk_text example_chunker example_text = Some cs
    /\ cs !! 1%nat = Some u
    /\ cs !! 2%nat = Some v
    /\ target_words example_chunker = Some tw
    /\ paragraphs (content v) = p :: more
    /\ tw < word_count u + count_words p.
Proof.
  destruct (chunk_text example_chunker example_text) as [cs|] eqn:E;
    [|vm_compute in E; discriminate].
  destruct (cs !! 1%nat) as [u|] eqn:Eu;
    [|vm_compute in E; injection E as <-; discriminate].
  destruct (cs !! 2%nat) as [v|] eqn:Ev;
    [|vm_compute in E; injection E as <-; discriminate].
  destruct (chunk_text_greedy example_chunker example_text cs 1 u v E Eu Ev)
    as (tw & p & more & H0 & H1 & H2).
  exists cs, u, v, tw, p, more. repeat split; assumption || reflexivity.
Defined.

(** X12. There are never more units than paragraphs. *)
Theorem chunk_text_units_le_paragraphs (self : TextChunker) (text : str)
    (cs : list BookChunk) :
  chunk_text self text = Some cs ->
  (length cs <= length (paragraphs text))%nat.
Proof.
  intros Hrun.
  destruct (chunk_text_spec self text cs Hrun)
    as (gs & Hunits & _ & Hcat & Hgs & _).
  rewrite <- Hcat, (Forall2_length _ _ _ Hunits). clear -Hgs.
  induction Hgs as [|g gs [Hne _] _ IH]; simpl; [lia|].
  rewrite length_app. destruct g; [congruence|]. simpl. lia.
Qed.

Lemma chunk_text_units_le_paragraphs_witness :
  exists cs,
    chunk_text example_chunker example_text = Some cs
    /\ (length cs <= length (paragraphs example_text))%nat.
Proof.
  eexists. split; [vm_compute; reflexivity|].
  apply (chunk_text_units_le_paragraphs example_chunker example_text).
  vm_compute; reflexivity.
Defined.

(** ** The text utilities *)

(** X13. [clean_text] keeps the words: the cleaned text has the same
    words, in the same order, as the text given, hence the same word
    count. *)
Theorem clean_text_keeps_words (text : str) :
  split_ws (clean_text text) = split_ws text
  /\ count_words (clean_text text) = count_words text.
Proof.
  assert (H : split_ws (clean_text text) = split_ws text).
  { unfold clean_text. destruct text as [|c text]; [reflexivity|].
    cbn [is_empty]. rewrite sub_class_double, sub_class_single.
    rewrite split_ws_strip. unfold split_ws at 1.
    rewrite split_ws_sub_newlines by auto.
    apply split_ws_clean_lines. }
  split; [exact H|]. rewrite !count_words_length, H. reflexivity.
Qed.

(** X14. What [clean_text] returns has no white space at either end, no
    tab, no two spaces in a row and no three newlines in a row. *)
Theorem clean_text_normal_form (text : str) :
  strip (clean_text text) = clean_text text
  /\ Forall (fun c => c <> TAB) (clean_text text)
  /\ (forall l r, clean_text text <> l ++ SP :: SP :: r)
  /\ (forall l r, clean_text text <> l ++ NL :: NL :: NL :: r).
Proof.
  destruct (clean_text_normal text) as (ls & _ & Hok & E & Hnl & Hstrip).
  split; [exact Hstrip|]. split; [|split].
  - rewrite E. apply lines_no_tab, Hok.
  - apply has_pair_false. rewrite E. apply lines_no_pair, Hok.
  - apply has_nl3_false. apply (sub_newlines_fixed_no_nl3 _ 0%nat Hnl).
Qed.

(** X15. The white space pass of the EPUB reader is idempotent and keeps
    the words, and [clean_text] is that pass followed by a trim: text
    extracted from an EPUB chapter, which ends with this pass and a trim,
    is left as it is by [clean_text]. *)
Theorem _clean_whitespace_clean_text (text : str) :
  _clean_whitespace (_clean_whitespace text) = _clean_whitespace text
  /\ split_ws (_clean_whitespace text) = split_ws text
  /\ clean_text text = strip (_clean_whitespace text)
  /\ clean_text (strip (_clean_whitespace text))
     = strip (_clean_whitespace text).
Proof.
  assert (Hclean : clean_text text = strip (_clean_whitespace text)).
  { unfold clean_text, _clean_whitespace.
    destruct text as [|c text]; [reflexivity|]. cbn [is_empty].
    rewrite sub_class_double, sub_class_single. reflexivity. }
  split; [|split; [|split]].
  - unfold _clean_whitespace.
    set (ls0 := map clean_line (split_nl text)).
    assert (Hne0 : ls0 <> []).
    { unfold ls0. pose proof (split_nl_not_nil text).
      destruct (split_nl text); [congruence|discriminate]. }
    assert (Hok0 : Forall line_ok ls0)
      by apply clean_lines_ok, split_nl_pieces.
    destruct (sub_newlines_lines ls0 0%nat Hne0 Hok0)
      as (ls1 & Hne1 & Hok1 & E1).
    rewrite E1. rewrite split_nl_join by (auto using lines_ok_nl_free).
    rewrite clean_lines_fixed by exact Hok1.
    rewrite <- E1. apply sub_newlines_idem.
  - unfold _clean_whitespace, split_ws.
    rewrite split_ws_sub_newlines by auto. apply split_ws_clean_lines.
  - exact Hclean.
  - rewrite <- Hclean.
    destruct (clean_text_normal text) as (ls & Hne & Hok & E & Hnl & Hstrip).
    apply (clean_text_fixed _ ls); assumption.
Qed.

(** X16. [split_into_sentences] returns trimmed, non-empty pieces without
    a newline, and loses no word: the words of the pieces, in order, are
    the words of the text. *)
Theorem split_into_sentences_keeps_words (text : str) :
  Forall (fun s => s <> [] /\ strip s = s /\ Forall (fun c => c <> NL) s)
         (split_into_sentences text)
  /\ concat (map split_ws (split_into_sentences text)) = split_ws text.
Proof.
  unfold split_into_sentences.
  destruct (is_empty (strip text)) eqn:Eb.
  - split; [constructor|]. apply is_empty_true, strip_nil_all_space in Eb.
    unfold split_ws. rewrite split_ws_all_space by exact Eb. reflexivity.
  - split.
    + pose proof (split_nl_pieces (sub_sentence_breaks None text)) as H.
      induction H as [|l ls Hl _ IH]; simpl; [constructor|].
      destruct (strip l) eqn:E; simpl; [exact IH|].
      constructor; [|exact IH]. rewrite <- E.
      split; [congruence|]. split; [apply strip_idem|].
      apply strip_nl_free, Hl.
    + rewrite concat_split_ws_kept, split_ws_lines. unfold split_ws.
      rewrite split_ws_sub_sentence_breaks by constructor. reflexivity.
Qed.

(** X17. [count_words] counts the maximal runs of characters that are not
    white space (its filter drops nothing); it is zero exactly on blank
    text and never negative. *)
Theorem count_words_runs (text : str) :
  count_words text = Z.of_nat (length (split_ws text))
  /\ Forall (fun w => w <> [] /\ Forall (fun c => isspace c = false) w)
            (split_ws text)
  /\ (count_words text = 0 <-> strip text = []).
Proof.
  split; [apply count_words_length|]. split.
  - apply (split_ws_from_words [] text). constructor.
  - split.
    + intros H. destruct (strip text) eqn:E; [reflexivity|].
      pose proof (count_words_pos text ltac:(congruence)). lia.
    + intros H. apply count_words_all_space, strip_nil_all_space, H.
Qed.

(** X18. Word counts add up across white space: a text cut at a white
    space character has the words of its two parts. *)
Theorem count_words_additive (a b : str) (c : char) :
  isspace c = true ->
  count_words (a ++ c :: b) = count_words a + count_words b.
Proof. apply count_words_app_space. Qed.

Lemma count_words_additive_witness :
  isspace NL = true
  /\ count_words (lit "a b" ++ NL :: lit "c") 
     = count_words (lit "a b") + count_words (lit "c").
Proof.
  split; [reflexivity|].
  apply (count_words_additive (lit "a b") (lit "c") NL). reflexivity.
Defined.

(** ** Processing a book and reading it day by day *)

(** X19. Reading day by day delivers the chunks in order.  From a book at
    currentUnit = c >= 0 with at least k chunks left, k runs of the read
    command with [--send] all succeed; the j-th of them (from 0) shows
    chunk number c + j with day readingDays + j + 1 and position c + j + 1,
    and says it is the last chunk exactly when it is; afterwards the book
    is at currentUnit c + k with k more reading days. *)
Theorem read_daily_in_order (data : chunk_data) (enable_email : bool)
    (book : string) (k : nat) (file : progress_file) (p : BookProgress) :
  well_formed file ->
  get_book_progress file book = Some p ->
  0 <= current_chunk p ->
  current_chunk p + Z.of_nat k <= Z.of_nat (length (chunks data)) ->
  exists shown file' p',
    read_daily_runs data enable_email file book k = Some (shown, file')
    /\ map shown_chunk shown
       = map Some (firstn k (skipn (Z.to_nat (current_chunk p)) (chunks data)))
    /\ (forall (j : nat) o, shown !! j = Some o ->
          exists chunk pct email,
            o = DailyReading chunk (reading_days p + Z.of_nat j + 1)
                  (current_chunk p + Z.of_nat j + 1) pct
                  (Z.of_nat (length (chunks data))
                   <=? current_chunk p + Z.of_nat j + 1) email)
    /\ get_book_progress file' book = Some p'
    /\ current_chunk p' = current_chunk p + Z.of_nat k
    /\ reading_days p' = reading_days p + Z.of_nat k.
Proof. apply read_daily_runs_spec. Qed.

Lemma read_daily_in_order_witness :
  let data := mkChunkData "book" (chunk_to_dict
                [mkBookChunk 0 (lit "a") 1 1; mkBookChunk 1 (lit "b") 1 1])
                2 2 2 in
  exists shown file' p',
    read_daily_runs data false None "book.txt" 2 = Some (shown, file')
    /\ map shown_chunk shown
       = map Some (firstn 2 (skipn (Z.to_nat (current_chunk fresh_progress))
                               (chunks data)))
    /\ (forall (j : nat) o, shown !! j = Some o ->
          exists chunk pct email,
            o = DailyReading chunk
                  (reading_days fresh_progress + Z.of_nat j + 1)
                  (current_chunk fresh_progress + Z.of_nat j + 1) pct
                  (Z.of_nat (length (chunks data))
                   <=? current_chunk fresh_progress + Z.of_nat j + 1) email)
    /\ get_book_progress file' "book.txt" = Some p'
    /\ current_chunk p' = current_chunk fresh_progress + Z.of_nat 2
    /\ reading_days p' = reading_days fresh_progress + Z.of_nat 2.
Proof.
  intros data.
  apply (read_daily_in_order data false "book.txt" 2 None fresh_progress).
  - unfold well_formed; simpl; eauto.
  - reflexivity.
  - simpl. lia.
  - simpl. lia.
Defined.

(** X20. A run without [--send] never changes the progress file, and on a
    book whose currentUnit has reached the number of chunks every run,
    with or without [--send], reports completion and changes nothing. *)
Theorem read_daily_leaves_file (data : chunk_data) (enable_email : bool)
    (file : progress_file) (book : string) :
  (forall o file',
     read_daily data enable_email file book false = Some (o, file') ->
     file' = file)
  /\ (forall p send,
        get_book_progress file book = Some p ->
        Z.of_nat (length (chunks data)) <= current_chunk p ->
        read_daily data enable_email file book send
        = Some (BookCompleted, file)).
Proof.
  split.
  - intros o file'. unfold read_daily.
    destruct (get_book_progress file book) as [p|]; [|discriminate].
    destruct (_ <=? _); [intros [= _ <-]; reflexivity|].
    destruct (py_index _ _); [|discriminate].
    intros [= _ <-]. reflexivity.
  - intros p send Hget Hn. unfold read_daily. rewrite Hget.
    apply Z.leb_le in Hn. rewrite Hn. reflexivity.
Qed.

(** X21. What [process_book_command] saves is consistent: the stored
    total_words is the word count of the file's content as read (cleaning
    loses no word) and the sum of the chunks' word counts, total_chunks is
    the number of chunks, the chunks are numbered from 0, and the book's
    progress entry keeps what it had with the new total. *)
Theorem process_book_saves (chunker : TextChunker) (stem name : string)
    (content : str) (file : progress_file) (data : chunk_data)
    (file' : progress_file) :
  process_book chunker stem name content file = Some (data, file') ->
  total_words data = count_words content
  /\ total_words data = sum_Z (map cd_word_count (chunks data))
  /\ total_chunks_saved data = Z.of_nat (length (chunks data))
  /\ map cd_index (chunks data)
     = map Z.of_nat (seq 0 (length (chunks data)))
  /\ well_formed file'
  /\ get_book_progress file' name
     = Some (set_total_chunks (progress_or_fresh file name)
               (Z.of_nat (length (chunks data)))).
Proof. apply process_book_spec. Qed.

Lemma process_book_saves_witness :
  exists data file',
    process_book example_chunker "book" "book.txt" example_text None
    = Some (data, file')
    /\ total_words data = count_words example_text
    /\ total_words data = sum_Z (map cd_word_count (chunks data))
    /\ total_chunks_saved data = Z.of_nat (length (chunks data))
    /\ map cd_index (chunks data)
       = map Z.of_nat (seq 0 (length (chunks data)))
    /\ well_formed file'
    /\ get_book_progress file' "book.txt"
       = Some (set_total_chunks (progress_or_fresh None "book.txt")
                 (Z.of_nat (length (chunks data)))).
Proof.
  destruct (process_book example_chunker "book" "book.txt" example_text None)
    as [[data file']|] eqn:E; [|vm_compute in E; discriminate].
  exists data, file'. split; [reflexivity|].
  apply (process_book_saves example_chunker "book" "book.txt" example_text
           None data file' E).
Defined.

(** X22. Process, then read to the end.  After a book that has not been
    read yet is processed into n chunks, n runs of the read command with
    [--send] succeed and show exactly the saved chunks, in order; after
    them every run reports completion and leaves the progress file as it
    is. *)
Theorem process_then_read (chunker : TextChunker) (stem name : string)
    (content : str) (enable_email : bool) (file : progress_file)
    (data : chunk_data) (file1 : progress_file) :
  process_book chunker stem name content file = Some (data, file1) ->
  current_chunk (progress_or_fresh file name) = 0 ->
  exists shown file2,
    read_daily_runs data enable_email file1 name (length (chunks data))
    = Some (shown, file2)
    /\ map shown_chunk shown = map Some (chunks data)
    /\ forall send,
         read_daily data enable_email file2 name send
         = Some (BookCompleted, file2).
Proof.
  intros Hproc Hzero.
  destruct (process_book_spec _ _ _ _ _ _ _ Hproc)
    as (_ & _ & _ & _ & Hwf1 & Hget1).
  destruct (read_daily_runs_spec data enable_email name
              (length (chunks data)) file1 _ Hwf1 Hget1)
    as (shown & file2 & p2 & Hruns & Hshown & _ & Hget2 & Hc2 & _);
    [simpl; lia|simpl; lia|].
  simpl in Hshown, Hc2. rewrite Hzero in Hshown, Hc2.
  exists shown, file2. split; [exact Hruns|]. split.
  - rewrite Hshown. simpl. rewrite firstn_all. reflexivity.
  - intros send. unfold read_daily. rewrite Hget2.
    destruct (Z.leb_spec (Z.of_nat (length (chunks data))) (current_chunk p2));
      [reflexivity|lia].
Qed.

Lemma process_then_read_witness :
  exists data file1 shown file2,
    process_book example_chunker "book" "book.txt" example_text None
    = Some (data, file1)
    /\ length (chunks data) = 3%nat
    /\ read_daily_runs data true file1 "book.txt" (length (chunks data))
       = Some (shown, file2)
    /\ map shown_chunk shown = map Some (chunks data)
    /\ forall send,
         read_daily data true file2 "book.txt" send
         = Some (BookCompleted, file2).
Proof.
  destruct (process_book example_chunker "book" "book.txt" example_text None)
    as [[data file1]|] eqn:E; [|vm_compute in E; discriminate].
  destruct (process_then_read example_chunker "book" "book.txt" example_text
              true None data file1 E eq_refl)
    as (shown & file2 & H1 & H2 & H3).
  exists data, file1, shown, file2. split; [reflexivity|].
  split; [|auto].
  vm_compute in E. injection E as <- _. reflexivity.
Defined.


